(** * Lambda authorizer for API Gateway: a shallow embedding

    This development embeds [src/lambda/authorizer/index.py] and states the
    properties of its decision builder, its TTL-cached SSM loader and its
    entry point.

    Data model.
    - Python [str] is [string]; the dictionaries read by the authorizer (the
      API Gateway event, the decoded JWT header and claims, the two SSM
      maps) are [gmap string string]: the source annotates the values it
      takes out of them as [str] ([principal_id], [usage_key], [tenant_id]).
    - [time.time()] is a rational number of seconds, and the sum
      [now + _CACHE_TTL_SECONDS] is the exact one, where the source adds two
      doubles; the properties that compare a later clock reading with an
      expiry compare it with the expiry the cache holds.
    - The two SSM parameters hold what the module's docstring says they
      hold, a JSON object from strings to strings; the key-set endpoint
      serves a JSON object. A parameter or a body of another shape, on which
      [.get] itself would raise, has no counterpart here.
    - An exception is the text it carries; [except Exception] catches all of
      them, so the class is not recorded.
    - The module globals ([_tenant_api_key_cache], [_client_tenant_cache],
      the [lru_cache] of [_get_jwks]) and the output of [print] live in a
      [World] that every effectful function threads.
    - boto3, urllib and PyJWT are outside the repository: what they answer is
      supplied by an [Env] of oracles, indexed by the number of external
      calls made so far, so that the outside world may answer differently
      each time it is asked. *)

From Stdlib Require Import String Ascii List QArith Lia Lqa.
From stdpp Require Import gmap strings.

#[local] Arguments String.append !_ _ / : simpl nomatch.

(** ** Python string operations used by the authorizer *)

(** [s.split(sep)] for a one-character separator: never an empty list. *)
Fixpoint str_split (sep : ascii) (s : string) : list string :=
  match s with
  | EmptyString => [EmptyString]
  | String c s' =>
      if Ascii.eqb c sep then EmptyString :: str_split sep s'
      else match str_split sep s' with
           | [] => [String c EmptyString]
           | p :: ps => String c p :: ps
           end
  end.

(** [sep.join(parts)] *)
Definition str_join (sep : string) (parts : list string) : string :=
  String.concat sep parts.

(** [s.lower()] on ASCII letters. *)
Definition ascii_lower (c : ascii) : ascii :=
  let n := nat_of_ascii c in
  if (65 <=? n)%nat && (n <=? 90)%nat then ascii_of_nat (n + 32) else c.

Fixpoint str_lower (s : string) : string :=
  match s with
  | EmptyString => EmptyString
  | String c s' => String (ascii_lower c) (str_lower s')
  end.

(** [s.startswith(p)] *)
Definition str_startswith (s p : string) : bool := String.prefix p s.

(** [s[n:]] *)
Fixpoint str_from (n : nat) (s : string) : string :=
  match n, s with
  | O, _ => s
  | S n', String _ s' => str_from n' s'
  | S _, EmptyString => EmptyString
  end.

(** Truth value of a [str]: the empty string is falsy. *)
Definition truthy (s : string) : bool :=
  match s with EmptyString => false | _ => true end.

(** Truth value of an optional [str] ([None] is falsy). *)
Definition truthy_opt (o : option string) : bool :=
  match o with Some s => truthy s | None => false end.

(** [a or b] on strings. *)
Definition str_or (a b : string) : string := if truthy a then a else b.

(** Number of occurrences of a character. *)
Fixpoint count_char (c : ascii) (s : string) : nat :=
  match s with
  | EmptyString => 0
  | String d s' => (if Ascii.eqb d c then 1 else 0) + count_char c s'
  end.

(** ** The authorizer response *)

Record Statement := {
  Action : string;
  Effect : string;
  Resource : string
}.

Record PolicyDocument := {
  Version : string;
  Statements : list Statement
}.

(** The dictionary returned to API Gateway. [usageIdentifierKey] is [None]
    when the key is not in the dictionary. *)
Record Policy := {
  principalId : string;
  policyDocument : PolicyDocument;
  context : gmap string string;
  usageIdentifierKey : option string
}.

(** The resource pattern computed at the head of [_build_policy]. *)
Definition wildcard_resource (resource : string) : string :=
  let arn_parts := str_split ":" resource in
  if (6 <=? length arn_parts)%nat then
    let api_part := hd "" (str_split "/" (nth 5 arn_parts "")) in
    str_join ":" (take 5 arn_parts) +:+ ":" +:+ api_part +:+ "/*"
  else resource.

Definition _build_policy (principal_id effect resource : string)
    (usage_key tenant_id : option string) : Policy :=
  let policy :=
    {| principalId := principal_id;
       policyDocument :=
         {| Version := "2012-10-17";
            Statements :=
              [ {| Action := "execute-api:Invoke";
                   Effect := effect;
                   Resource := wildcard_resource resource |} ] |};
       context := ∅;
       usageIdentifierKey := None |} in
  let policy :=
    if truthy_opt usage_key then
      {| principalId := principalId policy;
         policyDocument := policyDocument policy;
         context := context policy;
         usageIdentifierKey := usage_key |}
    else policy in
  let policy :=
    match tenant_id with
    | Some t =>
        if truthy t then
          {| principalId := principalId policy;
             policyDocument := policyDocument policy;
             context := <["tenant_id" := t]> (context policy);
             usageIdentifierKey := usageIdentifierKey policy |}
        else policy
    | None => policy
    end in
  policy.

(** The effect and the resource of the single statement of a policy. *)
Definition policy_effect (p : Policy) : string :=
  match Statements (policyDocument p) with
  | st :: _ => Effect st
  | [] => ""
  end.

Definition policy_resource (p : Policy) : string :=
  match Statements (policyDocument p) with
  | st :: _ => Resource st
  | [] => ""
  end.

(** ** Exceptions, the world and the monad of effects *)

Inductive Result (A : Type) : Type :=
  | Ok (a : A)
  | Raise (msg : string).
Arguments Ok {A} a.
Arguments Raise {A} msg.

(** A Python dictionary with [str] keys and [str] values. *)
Abbreviation Dict := (gmap string string).

(** [{"data": ..., "expires_at": ...}] *)
Record Cache := {
  data : Dict;
  expires_at : Q
}.

(** The two module-level cache dictionaries; [_get_ssm_json] receives one of
    them by reference and mutates it in place. *)
Inductive CacheRef := TenantApiKeyCache | ClientTenantCache.

(** What the process does to the outside: parameter-store reads, the fetch
    of the key set, and lines printed to the log. *)
Inductive IO :=
  | SsmGetParameter (path : string)
  | UrlOpen (url : string)
  | Printed (line : string).

Record World := {
  _tenant_api_key_cache : Cache;
  _client_tenant_cache : Cache;
  jwks_cache : option (list Dict);
  ticks : nat;
  output : list IO
}.

(** Module initialisation: both caches empty with expiry 0, nothing fetched. *)
Definition initial_world : World :=
  {| _tenant_api_key_cache := {| data := ∅; expires_at := 0 |};
     _client_tenant_cache := {| data := ∅; expires_at := 0 |};
     jwks_cache := None;
     ticks := 0;
     output := [] |}.

Definition M (A : Type) : Type := World → Result A * World.

#[global] Instance M_ret : MRet M := λ A a w, (Ok a, w).

#[global] Instance M_bind : MBind M := λ A B f m w,
  match m w with
  | (Ok a, w') => f a w'
  | (Raise e, w') => (Raise e, w')
  end.

(** [raise Exception(msg)] *)
Definition raise {A} (msg : string) : M A := λ w, (Raise msg, w).

(** The body of a [try], with its exception reified. *)
Definition attempt {A} (m : M A) : M (Result A) := λ w,
  let '(r, w') := m w in (Ok r, w').

Definition lift_result {A} (r : Result A) : M A := λ w, (r, w).

Definition tick : M nat := λ w,
  (Ok (ticks w),
   {| _tenant_api_key_cache := _tenant_api_key_cache w;
      _client_tenant_cache := _client_tenant_cache w;
      jwks_cache := jwks_cache w;
      ticks := S (ticks w);
      output := output w |}).

Definition emit (e : IO) : M unit := λ w,
  (Ok tt,
   {| _tenant_api_key_cache := _tenant_api_key_cache w;
      _client_tenant_cache := _client_tenant_cache w;
      jwks_cache := jwks_cache w;
      ticks := ticks w;
      output := output w ++ [e] |}).

Definition print (line : string) : M unit := emit (Printed line).

Definition cache_of (r : CacheRef) (w : World) : Cache :=
  match r with
  | TenantApiKeyCache => _tenant_api_key_cache w
  | ClientTenantCache => _client_tenant_cache w
  end.

Definition read_cache (r : CacheRef) : M Cache := λ w, (Ok (cache_of r w), w).

Definition write_cache (r : CacheRef) (c : Cache) : M unit := λ w,
  (Ok tt,
   match r with
   | TenantApiKeyCache =>
       {| _tenant_api_key_cache := c;
          _client_tenant_cache := _client_tenant_cache w;
          jwks_cache := jwks_cache w;
          ticks := ticks w;
          output := output w |}
   | ClientTenantCache =>
       {| _tenant_api_key_cache := _tenant_api_key_cache w;
          _client_tenant_cache := c;
          jwks_cache := jwks_cache w;
          ticks := ticks w;
          output := output w |}
   end).

Definition read_jwks_cache : M (option (list Dict)) := λ w, (Ok (jwks_cache w), w).

Definition write_jwks_cache (j : list Dict) : M unit := λ w,
  (Ok tt,
   {| _tenant_api_key_cache := _tenant_api_key_cache w;
      _client_tenant_cache := _client_tenant_cache w;
      jwks_cache := Some j;
      ticks := ticks w;
      output := output w |}).

(** Truth value of a dictionary: the empty one is falsy. *)
Definition dict_truthy (d : Dict) : bool := negb (bool_decide (d = ∅)).

(** [x < y] on clock readings. *)
Definition Qltb (x y : Q) : bool := negb (Qle_bool y x).

(** ** The environment: configuration and external services *)

Section Authorizer.

(** The object [RSAAlgorithm.from_jwk] returns. *)
Context {Key : Type}.

Record Env := {
  (** [os.environ] *)
  REGION : string;
  USER_POOL_ID : string;
  TENANT_API_KEY_MAP_PATH : string;
  CLIENT_TENANT_MAP_PATH : string;
  (** [time.time()] *)
  time_time : nat → Q;
  (** [json.loads(ssm_client.get_parameter(Name=path,
      WithDecryption=True)["Parameter"]["Value"])]: [Ok] with the JSON
      object of the parameter, or [Raise] with the exception of the read or
      of the parse. *)
  ssm_get_parameter_json : nat → string → Result Dict;
  (** [json.loads(urlopen(url, timeout=5).read())]: [Raise] with the
      exception of [urlopen], of [read] or of [json.loads], or [Ok] with the
      ["keys"] array of the JSON object that was served (the empty list when
      the object has none), which is all that [_get_public_key] takes from
      it. *)
  urlopen_jwks : nat → string → Result (list Dict);
  (** PyJWT *)
  jwt_get_unverified_header : string → Result Dict;
  RSAAlgorithm_from_jwk : Dict → Result Key;
  (** [jwt.decode(token, key, algorithms=["RS256"],
      options={"verify_exp": True})]: signature and expiry are checked by
      the library, against the clock of the moment. *)
  jwt_decode : nat → string → Key → Result Dict
}.

Context (env : Env).

Definition _CACHE_TTL_SECONDS : Q := 300.

Definition JWKS_URL : string :=
  "https://cognito-idp." +:+ REGION env +:+ ".amazonaws.com/" +:+
  USER_POOL_ID env +:+ "/.well-known/jwks.json".

(** ** Mapping cache *)

Definition _get_ssm_json (path : string) (cache : CacheRef)
    : M Dict :=
  t ← tick;
  let now := time_time env t in
  c ← read_cache cache;
  if dict_truthy (data c) && Qltb now (expires_at c) then mret (data c)
  else
    r ← attempt (emit (SsmGetParameter path);;
                 t' ← tick;
                 lift_result (ssm_get_parameter_json env t' path));
    match r with
    | Raise e =>
        print ("Failed to load SSM parameter " +:+ path +:+ ": " +:+ e);;
        c' ← read_cache cache;
        mret (if dict_truthy (data c') then data c' else ∅)
    | Ok loaded =>
        write_cache cache
          {| data := loaded; expires_at := (now + _CACHE_TTL_SECONDS)%Q |};;
        mret loaded
    end.

Definition _get_tenant_api_key_map : M Dict :=
  _get_ssm_json (TENANT_API_KEY_MAP_PATH env) TenantApiKeyCache.

Definition _get_client_tenant_map : M Dict :=
  _get_ssm_json (CLIENT_TENANT_MAP_PATH env) ClientTenantCache.

(** ** Key set cache and token validation *)

(** [@lru_cache(maxsize=1)]: a successful fetch is kept for the life of the
    process, a failed one is not. *)
Definition _get_jwks : M (list Dict) :=
  cached ← read_jwks_cache;
  match cached with
  | Some jwks => mret jwks
  | None =>
      emit (UrlOpen JWKS_URL);;
      t ← tick;
      jwks ← lift_result (urlopen_jwks env t JWKS_URL);
      write_jwks_cache jwks;;
      mret jwks
  end.

Fixpoint find_public_key (keys : list Dict) (kid : string) : Result Key :=
  match keys with
  | [] => Raise ("No matching key found for kid=" +:+ kid)
  | key_data :: rest =>
      match key_data !! "kid" with
      | None => Raise "'kid'"
      | Some k =>
          if String.eqb k kid then RSAAlgorithm_from_jwk env key_data
          else find_public_key rest kid
      end
  end.

Definition _get_public_key (kid : string) : M Key :=
  jwks ← _get_jwks;
  lift_result (find_public_key jwks kid).

Definition _validate_token (token : string) : M Dict :=
  header ← lift_result (jwt_get_unverified_header env token);
  kid ← match header !! "kid" with
        | Some kid => mret kid
        | None => raise "'kid'"
        end;
  public_key ← _get_public_key kid;
  t ← tick;
  claims ← lift_result (jwt_decode env t token public_key);
  if negb (bool_decide (claims !! "token_use" = Some "access"))
  then raise "token_use must be 'access'"
  else mret claims.

(** ** Entry point *)

(** The credential after the optional scheme prefix is removed. *)
Definition bearer_token (event : Dict) : string :=
  let token_str := default "" (event !! "authorizationToken") in
  if str_startswith (str_lower token_str) "bearer "
  then str_from 7 token_str
  else token_str.

(** [claims.get("client_id") or claims.get("sub", "")] *)
Definition caller_identity (claims : Dict) : string :=
  match claims !! "client_id" with
  | Some c => if truthy c then c else default "" (claims !! "sub")
  | None => default "" (claims !! "sub")
  end.

Definition lambda_handler (event : Dict) : M Policy :=
  let token_str := default "" (event !! "authorizationToken") in
  let method_arn := default "*" (event !! "methodArn") in
  let token_str :=
    if str_startswith (str_lower token_str) "bearer "
    then str_from 7 token_str
    else token_str in
  if negb (truthy token_str) then raise "Unauthorized"
  else
    r ← attempt (_validate_token token_str);
    match r with
    | Raise e =>
        print ("Token validation failed: " +:+ e);;
        raise "Unauthorized"
    | Ok claims =>
        let client_id := caller_identity claims in
        client_tenant_map ← _get_client_tenant_map;
        let tenant_id := client_tenant_map !! client_id in
        if negb (truthy_opt tenant_id) then
          print ("Unknown client_id=" +:+ client_id +:+
                 ", no tenant mapping found");;
          mret (_build_policy (str_or client_id "unknown") "Deny"
                              method_arn None None)
        else
          let tenant_id := default "" tenant_id in
          print ("Resolved client_id=" +:+ client_id +:+
                 " -> tenant_id=" +:+ tenant_id);;
          tenant_api_key_map ← _get_tenant_api_key_map;
          let api_key_value := tenant_api_key_map !! tenant_id in
          if negb (truthy_opt api_key_value) then
            print ("Tenant " +:+ tenant_id +:+ " has no API key mapping");;
            mret (_build_policy tenant_id "Deny" method_arn None None)
          else
            print ("Authorized tenant=" +:+ tenant_id +:+
                   ", applying usage plan key");;
            mret (_build_policy tenant_id "Allow" method_arn
                                api_key_value (Some tenant_id))
    end.

End Authorizer.

(** The world an action leaves behind. *)
Definition after {A} (m : M A) (w : World) : World := snd (m w).

(** The world after a line is printed. *)
Definition logged (line : string) (w : World) : World := after (print line) w.

(** [event.get("methodArn", "*")] *)
Definition method_arn (event : Dict) : string :=
  default "*" (event !! "methodArn").

(** The parameter-store reads of a log, oldest first. *)
Fixpoint ssm_reads (o : list IO) : list string :=
  match o with
  | [] => []
  | SsmGetParameter path :: o' => path :: ssm_reads o'
  | _ :: o' => ssm_reads o'
  end.

(** ** The statements of the specification that the code is compared with *)

(** The method ARN cut after its stage, [arn:...:apiId/stage], followed by
    [/*]: the grant "scoped to the whole stage segment". *)
Definition stage_wildcard (resource : string) : string :=
  let arn_parts := str_split ":" resource in
  str_join ":" (take 5 arn_parts) +:+ ":" +:+
  str_join "/" (take 2 (str_split "/" (nth 5 arn_parts ""))) +:+ "/*".

Definition grant_covers_stage_only (resource : string) : Prop :=
  (6 ≤ length (str_split ":" resource))%nat →
  ∀ principal_id effect usage_key tenant_id,
    policy_resource
      (_build_policy principal_id effect resource usage_key tenant_id)
    = stage_wildcard resource.

Section Statements.

Context {Key : Type} (env : @Env Key) (event : Dict) (w : World).


(** "An unmapped tenant is denied with the tenant in the context map." *)
Definition unmapped_tenant_keeps_tenant_context : Prop :=
  ∀ claims w1 m w2 t km w3,
    bearer_token event ≠ "" →
    _validate_token env (bearer_token event) w = (Ok claims, w1) →
    _get_client_tenant_map env w1 = (Ok m, w2) →
    m !! caller_identity claims = Some t →
    _get_tenant_api_key_map env
      (logged ("Resolved client_id=" +:+ caller_identity claims +:+
               " -> tenant_id=" +:+ t) w2) = (Ok km, w3) →
    km !! t = None →
    ∃ d w', lambda_handler env event w = (Ok d, w')
            ∧ policy_effect d = "Deny"
            ∧ principalId d = t
            ∧ context d !! "tenant_id" = Some t
            ∧ usageIdentifierKey d = None.

(** "A mapped caller whose tenant has a rate-limit key is allowed." *)
Definition mapped_tenant_is_allowed : Prop :=
  ∀ claims w1 m w2 t km w3 k,
    bearer_token event ≠ "" →
    _validate_token env (bearer_token event) w = (Ok claims, w1) →
    _get_client_tenant_map env w1 = (Ok m, w2) →
    m !! caller_identity claims = Some t →
    _get_tenant_api_key_map env
      (logged ("Resolved client_id=" +:+ caller_identity claims +:+
               " -> tenant_id=" +:+ t) w2) = (Ok km, w3) →
    km !! t = Some k →
    ∃ d w', lambda_handler env event w = (Ok d, w')
            ∧ policy_effect d = "Allow"
            ∧ principalId d = t
            ∧ usageIdentifierKey d = Some k
            ∧ context d !! "tenant_id" = Some t.


End Statements.

(** "A failed refresh does not move the expiry, so the next call attempts
    another refresh immediately": the next call is the get made in the
    world that the failed one leaves. *)
Definition failed_refresh_retried_at_once {Key : Type} (env : @Env Key)
    (path : string) (cache : CacheRef) (w : World) : Prop :=
  ∀ e,
    ¬ (data (cache_of cache w) ≠ ∅
       ∧ (time_time env (ticks w) < expires_at (cache_of cache w))%Q) →
    ssm_get_parameter_json env (S (ticks w)) path = Raise e →
    ∃ w', _get_ssm_json env path cache w = (Ok (data (cache_of cache w)), w')
          ∧ (∀ r, cache_of r w' = cache_of r w)
          ∧ ∃ m w'', _get_ssm_json env path cache w' = (Ok m, w'')
                     ∧ ssm_reads (output w'')
                       = ssm_reads (output w') ++ [path].

(** ** A concrete environment

    One signing key, three tokens: an access token of client [abc123], an
    ID token, and an access token whose expiry has passed. The two SSM
    parameters answer what the arguments say. *)

Definition demo_clock (n : nat) : Q := inject_Z (1700000000 + Z.of_nat n).

Definition demo_env (client_tenant_map tenant_api_key_map : Result Dict)
    : @Env string :=
  {| REGION := "us-east-1";
     USER_POOL_ID := "us-east-1_EXAMPLE";
     TENANT_API_KEY_MAP_PATH := "/api/tenant-api-key-map";
     CLIENT_TENANT_MAP_PATH := "/api/client-tenant-map";
     time_time := demo_clock;
     ssm_get_parameter_json := λ _ path,
       if String.eqb path "/api/client-tenant-map" then client_tenant_map
       else if String.eqb path "/api/tenant-api-key-map"
            then tenant_api_key_map
            else Raise "ParameterNotFound";
     urlopen_jwks := λ _ _,
       Ok [ {[ "kid" := "key-1"; "kty" := "RSA"; "n" := "modulus" ]} ];
     jwt_get_unverified_header := λ token,
       if bool_decide (token ∈ ["valid.access.token"; "valid.id.token";
                                "expired.access.token"])
       then Ok {[ "kid" := "key-1"; "alg" := "RS256" ]}
       else Raise "Not enough segments";
     RSAAlgorithm_from_jwk := λ key_data, Ok (default "" (key_data !! "n"));
     jwt_decode := λ _ token _,
       if String.eqb token "valid.access.token"
       then Ok {[ "client_id" := "abc123"; "token_use" := "access" ]}
       else if String.eqb token "valid.id.token"
       then Ok {[ "sub" := "user-1"; "token_use" := "id" ]}
       else if String.eqb token "expired.access.token"
       then Raise "Signature has expired"
       else Raise "Signature verification failed" |}.

Definition demo_arn : string :=
  "arn:aws:execute-api:us-east-1:123456789012:a1b2c3d4e5/prod/GET/orders".

Definition demo_event (credential : string) : Dict :=
  {[ "type" := "TOKEN";
     "authorizationToken" := credential;
     "methodArn" := demo_arn ]}.

(** The scenario of the specification: client [abc123] belongs to
    [tenantA], whose usage plan key is [key-789]. *)
Definition env_mapped : @Env string :=
  demo_env (Ok {[ "abc123" := "tenantA" ]}) (Ok {[ "tenantA" := "key-789" ]}).

(** The identity map knows nobody. *)
Definition env_unknown : @Env string :=
  demo_env (Ok ∅) (Ok {[ "tenantA" := "key-789" ]}).

(** [tenantA] has no usage plan key yet. *)
Definition env_unmapped : @Env string :=
  demo_env (Ok {[ "abc123" := "tenantA" ]}) (Ok {[ "tenantB" := "key-456" ]}).

(** The entries are there, with empty values. *)
Definition env_empty_tenant : @Env string :=
  demo_env (Ok {[ "abc123" := "" ]}) (Ok {[ "tenantA" := "key-789" ]}).

Definition env_empty_key : @Env string :=
  demo_env (Ok {[ "abc123" := "tenantA" ]}) (Ok {[ "tenantA" := "" ]}).

(** The parameter store refuses every read. *)
Definition env_store_down : @Env string :=
  demo_env (Raise "AccessDeniedException") (Raise "AccessDeniedException").

(** A process whose identity map was loaded [age] seconds before the first
    clock reading of [demo_clock]. *)
Definition seeded_world (age : Z) : World :=
  {| _tenant_api_key_cache := {| data := ∅; expires_at := 0 |};
     _client_tenant_cache :=
       {| data := {[ "abc123" := "tenantA" ]};
          expires_at := inject_Z (1700000000 - age + 300) |};
     jwks_cache := None;
     ticks := 0;
     output := [] |}.

(** The fetches of the key set in a log, oldest first. *)
Fixpoint url_opens (o : list IO) : list string :=
  match o with
  | [] => []
  | UrlOpen url :: o' => url :: url_opens o'
  | _ :: o' => url_opens o'
  end.

(** The key set that [demo_env] serves. *)
Definition demo_jwks : list Dict :=
  [ {[ "kid" := "key-1"; "kty" := "RSA"; "n" := "modulus" ]} ].

(** A process that fetched [demo_jwks] and loaded both maps of the scenario
    [age] seconds before the first clock reading of [demo_clock]. *)
Definition warm_world (age : Z) : World :=
  {| _tenant_api_key_cache :=
       {| data := {[ "tenantA" := "key-789" ]};
          expires_at := inject_Z (1700000000 - age + 300) |};
     _client_tenant_cache :=
       {| data := {[ "abc123" := "tenantA" ]};
          expires_at := inject_Z (1700000000 - age + 300) |};
     jwks_cache := Some demo_jwks;
     ticks := 0;
     output := [] |}.


(** The key-set endpoint cannot be reached. *)
Definition env_jwks_down : @Env string :=
  {| REGION := REGION env_mapped;
     USER_POOL_ID := USER_POOL_ID env_mapped;
     TENANT_API_KEY_MAP_PATH := TENANT_API_KEY_MAP_PATH env_mapped;
     CLIENT_TENANT_MAP_PATH := CLIENT_TENANT_MAP_PATH env_mapped;
     time_time := time_time env_mapped;
     ssm_get_parameter_json := ssm_get_parameter_json env_mapped;
     urlopen_jwks := λ _ _, Raise "<urlopen error timed out>";
     jwt_get_unverified_header := jwt_get_unverified_header env_mapped;
     RSAAlgorithm_from_jwk := RSAAlgorithm_from_jwk env_mapped;
     jwt_decode := jwt_decode env_mapped |}.

(** The parameter store refuses every read, and the wall clock is set back
    by one second after its first reading. *)
Definition env_clock_back : @Env string :=
  {| REGION := REGION env_store_down;
     USER_POOL_ID := USER_POOL_ID env_store_down;
     TENANT_API_KEY_MAP_PATH := TENANT_API_KEY_MAP_PATH env_store_down;
     CLIENT_TENANT_MAP_PATH := CLIENT_TENANT_MAP_PATH env_store_down;
     time_time := λ n,
       match n with
       | O => inject_Z 1700000000
       | S _ => inject_Z 1699999999
       end;
     ssm_get_parameter_json := ssm_get_parameter_json env_store_down;
     urlopen_jwks := urlopen_jwks env_store_down;
     jwt_get_unverified_header := jwt_get_unverified_header env_store_down;
     RSAAlgorithm_from_jwk := RSAAlgorithm_from_jwk env_store_down;
     jwt_decode := jwt_decode env_store_down |}.

(** A process that has [jwks] as its cached key set and nothing else. *)
Definition world_with_jwks (jwks : list Dict) : World :=
  {| _tenant_api_key_cache := {| data := ∅; expires_at := 0 |};
     _client_tenant_cache := {| data := ∅; expires_at := 0 |};
     jwks_cache := Some jwks;
     ticks := 0;
     output := [] |}.

(** * Properties *)

Example wildcard_method_arn :
  wildcard_resource
    "arn:aws:execute-api:us-east-1:123456789012:a1b2c3d4e5/prod/GET/orders"
  = "arn:aws:execute-api:us-east-1:123456789012:a1b2c3d4e5/*".
Proof. reflexivity. Qed.

Example wildcard_default_arn : wildcard_resource "*" = "*".
Proof. reflexivity. Qed.


(** ** Splitting and joining *)

Lemma append_assoc (a b c : string) : (a +:+ b) +:+ c = a +:+ (b +:+ c).
Proof. induction a as [|x a IH]; simpl; [reflexivity | now rewrite IH]. Qed.

Lemma append_nil_r (a : string) : a +:+ "" = a.
Proof. induction a as [|x a IH]; simpl; [reflexivity | now rewrite IH]. Qed.

Lemma count_char_app (c : ascii) (a b : string) :
  count_char c (a +:+ b) = (count_char c a + count_char c b)%nat.
Proof. induction a as [|x a IH]; simpl; [reflexivity | rewrite IH; lia]. Qed.

Lemma str_split_cons (sep : ascii) (s : string) :
  ∃ p ps, str_split sep s = p :: ps.
Proof.
  destruct s as [|c s]; simpl; [eauto |].
  destruct (Ascii.eqb c sep); [eauto |].
  destruct (str_split sep s); eauto.
Qed.

(** Joining the parts with the separator gives the string back. *)
Lemma str_join_split (sep : ascii) (s : string) :
  str_join (String sep "") (str_split sep s) = s.
Proof.
  unfold str_join.
  induction s as [|c s IH]; simpl; [reflexivity |].
  destruct (Ascii.eqb_spec c sep) as [->|Hne].
  - destruct (str_split_cons sep s) as (p & ps & Hs).
    rewrite Hs in *. simpl in *. now rewrite IH.
  - destruct (str_split_cons sep s) as (p & ps & Hs).
    rewrite Hs in *. destruct ps; simpl in *; now rewrite <- IH.
Qed.

(** No part contains the separator. *)
Lemma str_split_parts (sep : ascii) (s : string) :
  Forall (λ p, count_char sep p = 0%nat) (str_split sep s).
Proof.
  induction s as [|c s IH]; simpl; [repeat constructor |].
  destruct (Ascii.eqb_spec c sep) as [->|Hne].
  - constructor; [reflexivity | exact IH].
  - destruct (str_split sep s) as [|p ps].
    + repeat constructor. simpl.
      destruct (Ascii.eqb_spec c sep); [contradiction | reflexivity].
    + inversion IH as [|? ? Hp Hps]; subst. constructor; [| exact Hps].
      simpl. destruct (Ascii.eqb_spec c sep); [contradiction | exact Hp].
Qed.

(** The first part of a split is the string up to its first separator. *)
Lemma str_split_hd (sep : ascii) (s : string) :
  ∃ rest, s = hd "" (str_split sep s) +:+ rest
          ∧ (rest = "" ∨ ∃ r, rest = String sep r).
Proof.
  induction s as [|c s (rest & Hs & Hrest)]; simpl.
  - exists "". split; [reflexivity | now left].
  - destruct (Ascii.eqb_spec c sep) as [->|Hne].
    + exists (String sep s). split; [reflexivity | right; eauto].
    + destruct (str_split sep s) as [|p ps]; simpl in *.
      * exists rest. split; [now rewrite Hs at 1 | exact Hrest].
      * exists rest. split; [now rewrite Hs at 1 | exact Hrest].
Qed.

(** ** Decision builder *)

Lemma build_policy_resource principal_id effect resource usage_key tenant_id :
  policy_resource
    (_build_policy principal_id effect resource usage_key tenant_id)
  = wildcard_resource resource.
Proof.
  unfold _build_policy.
  destruct (truthy_opt usage_key), tenant_id as [t|];
    try destruct (truthy t); reflexivity.
Qed.

Lemma build_policy_effect principal_id effect resource usage_key tenant_id :
  policy_effect
    (_build_policy principal_id effect resource usage_key tenant_id)
  = effect.
Proof.
  unfold _build_policy.
  destruct (truthy_opt usage_key), tenant_id as [t|];
    try destruct (truthy t); reflexivity.
Qed.

Lemma build_policy_principal principal_id effect resource usage_key tenant_id :
  principalId
    (_build_policy principal_id effect resource usage_key tenant_id)
  = principal_id.
Proof.
  unfold _build_policy.
  destruct (truthy_opt usage_key), tenant_id as [t|];
    try destruct (truthy t); reflexivity.
Qed.

(** The shape of the pattern for an ARN of six segments or more: the ARN is
    cut in its sixth segment, at the first slash if there is one and at the
    end of the segment otherwise. *)
Lemma wildcard_resource_shape (resource : string) :
  (6 ≤ length (str_split ":" resource))%nat →
  ∃ pre api rest,
    resource = pre +:+ ":" +:+ api +:+ rest
    ∧ count_char ":" pre = 4%nat
    ∧ count_char ":" api = 0%nat
    ∧ count_char "/" api = 0%nat
    ∧ (rest = "" ∨ ∃ r, rest = String "/" r ∨ rest = String ":" r)
    ∧ wildcard_resource resource = pre +:+ ":" +:+ api +:+ "/*".
Proof.
  intros Hlen. unfold wildcard_resource.
  pose proof (str_join_split ":" resource) as Hjoin.
  pose proof (str_split_parts ":" resource) as Hparts.
  destruct (str_split ":" resource)
    as [|p0 [|p1 [|p2 [|p3 [|p4 [|p5 tl]]]]]]; simpl in Hlen; try lia.
  replace (6 <=? length (p0 :: p1 :: p2 :: p3 :: p4 :: p5 :: tl))%nat
    with true by (symmetry; apply Nat.leb_le; simpl; lia).
  repeat match goal with
         | H : Forall _ (_ :: _) |- _ =>
             let Hp := fresh "Hp" in
             apply Forall_cons in H as [Hp H]
         end.
  cbn [take nth firstn].
  destruct (str_split_hd "/" p5) as (rest5 & Hp5 & Hrest5).
  assert (Hslash : count_char "/" (hd "" (str_split "/" p5)) = 0%nat).
  { pose proof (str_split_parts "/" p5) as Hs.
    destruct (str_split "/" p5); [reflexivity |].
    now apply Forall_cons in Hs as [Hs _]. }
  revert Hp5 Hslash. generalize (hd "" (str_split "/" p5)) as api.
  intros api Hp5 Hslash.
  assert (Hapi : count_char ":" api = 0%nat).
  { rewrite Hp5, count_char_app in Hp4. lia. }
  exists (p0 +:+ ":" +:+ p1 +:+ ":" +:+ p2 +:+ ":" +:+ p3 +:+ ":" +:+ p4), api,
    (rest5 +:+ match tl with [] => "" | _ => ":" +:+ str_join ":" tl end).
  split; [| split; [| split; [| split; [| split]]]].
  - rewrite <- Hjoin, Hp5. unfold str_join. cbn [String.concat].
    destruct tl; rewrite ?append_assoc, ?append_nil_r; reflexivity.
  - rewrite !count_char_app. simpl. lia.
  - exact Hapi.
  - exact Hslash.
  - destruct Hrest5 as [->|(r & ->)].
    + destruct tl; [now left |]. right. simpl. eauto.
    + right. simpl. eauto.
  - unfold str_join. cbn [String.concat].
    now rewrite !append_assoc.
Qed.

(** ** The credential *)

Lemma str_lower_empty (s : string) : str_lower s = "" → s = "".
Proof. destruct s; [reflexivity | discriminate]. Qed.

Lemma str_from_lower (n : nat) (s : string) :
  str_from n (str_lower s) = str_lower (str_from n s).
Proof.
  revert s. induction n as [|n IH]; intros [|c s]; simpl;
    try reflexivity. apply IH.
Qed.

Lemma prefix_whole (p s : string) :
  String.prefix p s = true → str_from (String.length p) s = "" → s = p.
Proof.
  revert s. induction p as [|c p IH]; intros [|d s]; simpl;
    try congruence.
  destruct (ascii_dec c d) as [->|]; [| discriminate].
  intros Hp Hs. f_equal. now apply IH.
Qed.

(** The credential is empty after the prefix is removed exactly when the
    header is missing or empty, or is the word [bearer] in any letter case
    followed by one space and nothing else. *)
Lemma bearer_token_empty (event : Dict) :
  let credential := default "" (event !! "authorizationToken") in
  bearer_token event = ""
  ↔ credential = "" ∨ str_lower credential = "bearer ".
Proof.
  intros credential. unfold bearer_token, str_startswith. fold credential.
  destruct (String.prefix "bearer " (str_lower credential)) eqn:Hp.
  - split.
    + intros Hfrom. right. apply prefix_whole; [exact Hp |].
      change (String.length "bearer ") with 7%nat.
      now rewrite str_from_lower, Hfrom.
    + intros [-> | Hlow]; [reflexivity |].
      apply str_lower_empty. now rewrite <- str_from_lower, Hlow.
  - split; [now left |]. intros [Hc | Hlow]; [exact Hc |].
    rewrite Hlow in Hp. discriminate.
Qed.

(** ** Running the monad *)

Lemma Qltb_lt (x y : Q) : Qltb x y = true ↔ (x < y)%Q.
Proof.
  unfold Qltb. rewrite negb_true_iff, <- not_true_iff_false, Qle_bool_iff.
  split; [apply Qnot_le_lt | apply Qlt_not_le].
Qed.

Lemma Qltb_ge (x y : Q) : Qltb x y = false ↔ (y <= x)%Q.
Proof. unfold Qltb. rewrite negb_false_iff. apply Qle_bool_iff. Qed.

Lemma dict_truthy_true (d : Dict) : dict_truthy d = true ↔ d ≠ ∅.
Proof.
  unfold dict_truthy. rewrite negb_true_iff, bool_decide_eq_false. tauto.
Qed.

Lemma dict_truthy_false (d : Dict) : dict_truthy d = false ↔ d = ∅.
Proof.
  unfold dict_truthy. rewrite negb_false_iff, bool_decide_eq_true. tauto.
Qed.

Lemma truthy_true (s : string) : truthy s = true ↔ s ≠ "".
Proof. destruct s; simpl; split; congruence. Qed.

Lemma truthy_false (s : string) : truthy s = false ↔ s = "".
Proof. destruct s; simpl; split; congruence. Qed.

Lemma truthy_opt_false (o : option string) :
  truthy_opt o = false ↔ o = None ∨ o = Some "".
Proof.
  destruct o as [s|]; simpl; [rewrite truthy_false |]; split;
    try tauto; try (intros [?|?]; congruence).
  intros ->. now right.
Qed.

Lemma ssm_reads_app (o1 o2 : list IO) :
  ssm_reads (o1 ++ o2) = ssm_reads o1 ++ ssm_reads o2.
Proof.
  induction o1 as [|[p|u|l] o1 IH]; simpl; [reflexivity | | |];
    now rewrite ?IH.
Qed.

Ltac run :=
  unfold logged, after, mbind, M_bind, mret, M_ret, attempt, raise, print,
    emit, lift_result, read_cache, write_cache, tick in *;
  cbn [fst snd ticks output jwks_cache _tenant_api_key_cache
       _client_tenant_cache data expires_at cache_of] in *.

Section Properties.

Context {Key : Type} (env : @Env Key).

(** *** The mapping cache, case by case *)

(** Fresh data: one clock reading and nothing else. *)
Lemma get_ssm_json_hit path cache w :
  data (cache_of cache w) ≠ ∅ →
  (time_time env (ticks w) < expires_at (cache_of cache w))%Q →
  _get_ssm_json env path cache w
  = (Ok (data (cache_of cache w)), after tick w).
Proof.
  intros Hdata Hnow. unfold _get_ssm_json. destruct cache; run.
  all: apply dict_truthy_true in Hdata; apply Qltb_lt in Hnow.
  all: now rewrite Hdata, Hnow.
Qed.

(** No data or expired, and the parameter is read and parsed. *)
Lemma get_ssm_json_load path cache w loaded :
  ¬ (data (cache_of cache w) ≠ ∅
     ∧ (time_time env (ticks w) < expires_at (cache_of cache w))%Q) →
  ssm_get_parameter_json env (S (ticks w)) path = Ok loaded →
  _get_ssm_json env path cache w
  = (Ok loaded,
     after (write_cache cache
              {| data := loaded;
                 expires_at :=
                   (time_time env (ticks w) + _CACHE_TTL_SECONDS)%Q |})
       (after tick (after (emit (SsmGetParameter path)) (after tick w)))).
Proof.
  intros Hstale Hload. unfold _get_ssm_json. destruct cache; run.
  all: destruct (dict_truthy _ && Qltb _ _) eqn:Hfresh; run;
    [| now rewrite Hload].
  all: exfalso; apply Hstale; apply andb_true_iff in Hfresh as [Hd Hq].
  all: split; [now apply dict_truthy_true | now apply Qltb_lt].
Qed.

(** No data or expired, and the read or the parse raises. *)
Lemma get_ssm_json_fail path cache w e :
  ¬ (data (cache_of cache w) ≠ ∅
     ∧ (time_time env (ticks w) < expires_at (cache_of cache w))%Q) →
  ssm_get_parameter_json env (S (ticks w)) path = Raise e →
  _get_ssm_json env path cache w
  = (Ok (data (cache_of cache w)),
     logged ("Failed to load SSM parameter " +:+ path +:+ ": " +:+ e)
       (after tick (after (emit (SsmGetParameter path)) (after tick w)))).
Proof.
  intros Hstale Hload. unfold _get_ssm_json. destruct cache; run.
  all: destruct (dict_truthy _ && Qltb _ _) eqn:Hfresh; run.
  all: try (exfalso; apply Hstale; apply andb_true_iff in Hfresh as [Hd Hq];
            split; [now apply dict_truthy_true | now apply Qltb_lt]).
  all: rewrite Hload; do 2 f_equal.
  all: destruct (dict_truthy _) eqn:Hd; try reflexivity;
    now apply dict_truthy_false in Hd.
Qed.

(** The loader never raises. *)
Lemma get_ssm_json_total path cache w :
  ∃ m w', _get_ssm_json env path cache w = (Ok m, w').
Proof.
  unfold _get_ssm_json. destruct cache; run.
  all: destruct (dict_truthy _ && Qltb _ _); run; [eauto |].
  all: destruct (ssm_get_parameter_json env _ path); eauto.
Qed.

(** Without fresh data exactly one read of the parameter is made, whatever
    its outcome. *)
Lemma get_ssm_json_miss path cache w :
  ¬ (data (cache_of cache w) ≠ ∅
     ∧ (time_time env (ticks w) < expires_at (cache_of cache w))%Q) →
  ∃ m w', _get_ssm_json env path cache w = (Ok m, w')
          ∧ ssm_reads (output w') = ssm_reads (output w) ++ [path].
Proof.
  intros Hstale.
  destruct (ssm_get_parameter_json env (S (ticks w)) path) as [loaded|e]
    eqn:Hload.
  - rewrite (get_ssm_json_load _ _ _ _ Hstale Hload).
    eexists _, _. split; [reflexivity |].
    destruct cache; run; now rewrite ssm_reads_app.
  - rewrite (get_ssm_json_fail _ _ _ _ Hstale Hload).
    eexists _, _. split; [reflexivity |].
    destruct cache; run; rewrite <- app_assoc, ssm_reads_app; reflexivity.
Qed.

(** C8: a get with non-empty data and a clock reading strictly before the
    expiry returns the cached data and performs no load (the log and both
    caches are as before); any other get makes exactly one read of the
    parameter, and when that read succeeds the loaded mapping is returned,
    it replaces the cached data, and the expiry becomes the clock reading
    plus 300 seconds. *)
Theorem mapping_cache_get (path : string) (cache : CacheRef) (w : World) :
  let c := cache_of cache w in
  let now := time_time env (ticks w) in
  (data c ≠ ∅ → (now < expires_at c)%Q →
   ∃ w', _get_ssm_json env path cache w = (Ok (data c), w')
         ∧ output w' = output w
         ∧ ∀ r, cache_of r w' = cache_of r w)
  ∧ (¬ (data c ≠ ∅ ∧ (now < expires_at c)%Q) →
     ∃ m w', _get_ssm_json env path cache w = (Ok m, w')
             ∧ ssm_reads (output w') = ssm_reads (output w) ++ [path]
             ∧ ∀ loaded,
                 ssm_get_parameter_json env (S (ticks w)) path = Ok loaded →
                 m = loaded
                 ∧ cache_of cache w'
                   = {| data := loaded; expires_at := (now + 300)%Q |}).
Proof.
  intros c now. split.
  - intros Hdata Hnow. exists (after tick w).
    split; [now apply get_ssm_json_hit |].
    split; [reflexivity | intros []; reflexivity].
  - intros Hstale.
    destruct (get_ssm_json_miss path cache w Hstale) as (m & w' & Hrun & Hio).
    exists m, w'. split; [exact Hrun |]. split; [exact Hio |].
    intros loaded Hload.
    rewrite (get_ssm_json_load _ _ _ _ Hstale Hload) in Hrun.
    injection Hrun as <- <-. split; [reflexivity |].
    destruct cache; reflexivity.
Qed.

(** C7 (as the code has it): when a get has to refresh and the read or the
    parse of the parameter raises, the get returns the data the cache held
    (the empty mapping when nothing was ever loaded), both caches (data and
    expiry) and the key set are as before, and the log only gains the read
    and the line that reports the failure. Since the expiry did not move, the
    next get on that cache reads the parameter again, provided its clock
    reading is not earlier than the one of the failed get. *)
Theorem failed_refresh_serves_stale
    (path : string) (cache : CacheRef) (w : World) (e : string) :
  let c := cache_of cache w in
  let now := time_time env (ticks w) in
  ¬ (data c ≠ ∅ ∧ (now < expires_at c)%Q) →
  ssm_get_parameter_json env (S (ticks w)) path = Raise e →
  ∃ w', _get_ssm_json env path cache w = (Ok (data c), w')
        ∧ (∀ r, cache_of r w' = cache_of r w)
        ∧ jwks_cache w' = jwks_cache w
        ∧ output w'
          = output w ++
            [SsmGetParameter path;
             Printed ("Failed to load SSM parameter " +:+ path +:+ ": "
                      +:+ e)]
        ∧ ∀ w2,
            cache_of cache w2 = cache_of cache w' →
            (now <= time_time env (ticks w2))%Q →
            ∃ m w2', _get_ssm_json env path cache w2 = (Ok m, w2')
                     ∧ ssm_reads (output w2')
                       = ssm_reads (output w2) ++ [path].
Proof.
  intros c now Hstale Hload.
  eexists. split; [exact (get_ssm_json_fail _ _ _ _ Hstale Hload) |].
  assert (Hsame : ∀ r,
    cache_of r
      (logged ("Failed to load SSM parameter " +:+ path +:+ ": " +:+ e)
         (after tick (after (emit (SsmGetParameter path)) (after tick w))))
    = cache_of r w) by (intros []; reflexivity).
  split; [exact Hsame |]. split; [reflexivity |].
  split; [run; now rewrite <- app_assoc |].
  intros w2 Hcache Hlater. rewrite Hsame in Hcache.
  apply get_ssm_json_miss. rewrite Hcache. intros [Hdata Hnow].
  apply Hstale. split; [exact Hdata |].
  eapply Qle_lt_trans; [exact Hlater | exact Hnow].
Qed.

(** *** Token validation *)

(** Claims that come out of the validator carry the access marker. *)
Lemma validate_token_access token w claims w1 :
  _validate_token env token w = (Ok claims, w1) →
  claims !! "token_use" = Some "access".
Proof.
  unfold _validate_token. run.
  destruct (jwt_get_unverified_header env token) as [header|]; [|discriminate].
  destruct (header !! "kid") as [kid|]; run; [|discriminate].
  destruct (_get_public_key env kid w) as [[key|] w0]; [|discriminate].
  run. destruct (jwt_decode env (ticks w0) token key) as [c|]; [|discriminate].
  destruct (bool_decide (c !! "token_use" = Some "access")) eqn:Hacc;
    cbn [negb]; run; [|discriminate].
  intros [= <- <-]. now apply bool_decide_eq_true in Hacc.
Qed.

(** Once the verification key is found, a token that the library rejects
    (bad signature, expiry in the past) and a token of another type both
    make the validator raise. *)
Lemma validate_token_failures token w header kid key w0 :
  jwt_get_unverified_header env token = Ok header →
  header !! "kid" = Some kid →
  _get_public_key env kid w = (Ok key, w0) →
  (∀ e, jwt_decode env (ticks w0) token key = Raise e →
        _validate_token env token w = (Raise e, after tick w0))
  ∧ (∀ claims,
       jwt_decode env (ticks w0) token key = Ok claims →
       claims !! "token_use" ≠ Some "access" →
       _validate_token env token w
       = (Raise "token_use must be 'access'", after tick w0)).
Proof.
  intros Hheader Hkid Hkey. split.
  - intros e Hdecode. unfold _validate_token. run.
    rewrite Hheader, Hkid. run. rewrite Hkey. run. now rewrite Hdecode.
  - intros claims Hdecode Htype. unfold _validate_token. run.
    rewrite Hheader, Hkid. run. rewrite Hkey. run. rewrite Hdecode.
    now rewrite bool_decide_eq_false_2.
Qed.

(** *** The entry point, path by path *)

Lemma lambda_handler_run event w :
  lambda_handler env event w =
  if truthy (bearer_token event) then
    match _validate_token env (bearer_token event) w with
    | (Raise e, w1) =>
        (Raise "Unauthorized", logged ("Token validation failed: " +:+ e) w1)
    | (Ok claims, w1) =>
        let client_id := caller_identity claims in
        match _get_client_tenant_map env w1 with
        | (Raise e, w2) => (Raise e, w2)
        | (Ok m, w2) =>
            match m !! client_id with
            | Some (String a t' as t) =>
                let w2' := logged ("Resolved client_id=" +:+ client_id +:+
                                   " -> tenant_id=" +:+ t) w2 in
                match _get_tenant_api_key_map env w2' with
                | (Raise e, w3) => (Raise e, w3)
                | (Ok km, w3) =>
                    match km !! t with
                    | Some (String b k' as k) =>
                        (Ok (_build_policy t "Allow" (method_arn event)
                                           (Some k) (Some t)),
                         logged ("Authorized tenant=" +:+ t +:+
                                 ", applying usage plan key") w3)
                    | _ =>
                        (Ok (_build_policy t "Deny" (method_arn event)
                                           None None),
                         logged ("Tenant " +:+ t +:+
                                 " has no API key mapping") w3)
                    end
                end
            | _ =>
                (Ok (_build_policy (str_or client_id "unknown") "Deny"
                                   (method_arn event) None None),
                 logged ("Unknown client_id=" +:+ client_id +:+
                         ", no tenant mapping found") w2)
            end
        end
    end
  else (Raise "Unauthorized", w).
Proof.
  unfold lambda_handler.
  change (if str_startswith
               (str_lower (default "" (event !! "authorizationToken")))
               "bearer "
          then str_from 7 (default "" (event !! "authorizationToken"))
          else default "" (event !! "authorizationToken"))
    with (bearer_token event).
  change (default "*" (event !! "methodArn")) with (method_arn event).
  destruct (truthy (bearer_token event)); cbn [negb]; [| reflexivity].
  run.
  destruct (_validate_token env (bearer_token event) w) as [[claims|e] w1];
    [| reflexivity].
  destruct (_get_client_tenant_map env w1) as [[m|e] w2]; [| reflexivity].
  destruct (m !! caller_identity claims) as [[|a t]|];
    cbn [truthy_opt truthy negb default from_option id]; run;
    try reflexivity.
  destruct (_get_tenant_api_key_map env _) as [[km|e] w3]; [| reflexivity].
  destruct (km !! String a t) as [[|b k]|]; reflexivity.
Qed.


(** C6: the token is valid and the caller identity taken from its claims
    has no entry in the identity→tenant mapping that the cache returns: the
    decision is Deny, its principal is the caller identity, or ["unknown"]
    when that identity is empty, its context map is empty (no tenant
    identifier) and it has no usage key. *)
Theorem unknown_caller_denied
    (event : Dict) (w : World) (claims : Dict) (w1 : World)
    (m : Dict) (w2 : World) :
  bearer_token event ≠ "" →
  _validate_token env (bearer_token event) w = (Ok claims, w1) →
  _get_client_tenant_map env w1 = (Ok m, w2) →
  m !! caller_identity claims = None →
  ∃ d w', lambda_handler env event w = (Ok d, w')
          ∧ policy_effect d = "Deny"
          ∧ principalId d
            = (if decide (caller_identity claims = "") then "unknown"
               else caller_identity claims)
          ∧ context d !! "tenant_id" = None
          ∧ usageIdentifierKey d = None.
Proof.
  intros Htok Hval Hmap Habsent. apply truthy_true in Htok.
  eexists _, _. rewrite lambda_handler_run, Htok, Hval. cbn zeta.
  rewrite Hmap, Habsent. split; [reflexivity |].
  repeat split. cbn. unfold str_or.
  destruct (caller_identity claims); reflexivity.
Qed.

(** C2 (as the code has it): the token is valid, the caller identity maps
    to a non-empty tenant, and that tenant has no entry in the
    tenant→rate-limit-key mapping: the decision is Deny, its principal is
    the tenant identifier, it has no usage key, and its context map is
    empty: the tenant identifier is not put in it. *)
Theorem unmapped_tenant_denied
    (event : Dict) (w : World) (claims : Dict) (w1 : World)
    (m : Dict) (w2 : World) (t : string) (km : Dict) (w3 : World) :
  bearer_token event ≠ "" →
  _validate_token env (bearer_token event) w = (Ok claims, w1) →
  _get_client_tenant_map env w1 = (Ok m, w2) →
  m !! caller_identity claims = Some t →
  t ≠ "" →
  _get_tenant_api_key_map env
    (logged ("Resolved client_id=" +:+ caller_identity claims +:+
             " -> tenant_id=" +:+ t) w2) = (Ok km, w3) →
  km !! t = None →
  ∃ d w', lambda_handler env event w = (Ok d, w')
          ∧ policy_effect d = "Deny"
          ∧ principalId d = t
          ∧ context d = ∅
          ∧ usageIdentifierKey d = None.
Proof.
  intros Htok Hval Hmap Hten Hne Hkeys Habsent. apply truthy_true in Htok.
  eexists _, _. rewrite lambda_handler_run, Htok, Hval. cbn zeta.
  rewrite Hmap, Hten. destruct t as [|a t]; [congruence |].
  rewrite Hkeys, Habsent. repeat split.
Qed.

(** C5 (as the code has it): the token is valid, the caller identity maps
    to a non-empty tenant and that tenant maps to a non-empty rate-limit
    key: the decision is Allow, its principal is the tenant identifier, its
    usage key is exactly that rate-limit key and its context map holds the
    tenant identifier under [tenant_id] and nothing else. *)
Theorem mapped_tenant_allowed
    (event : Dict) (w : World) (claims : Dict) (w1 : World)
    (m : Dict) (w2 : World) (t : string) (km : Dict) (w3 : World)
    (k : string) :
  bearer_token event ≠ "" →
  _validate_token env (bearer_token event) w = (Ok claims, w1) →
  _get_client_tenant_map env w1 = (Ok m, w2) →
  m !! caller_identity claims = Some t →
  t ≠ "" →
  _get_tenant_api_key_map env
    (logged ("Resolved client_id=" +:+ caller_identity claims +:+
             " -> tenant_id=" +:+ t) w2) = (Ok km, w3) →
  km !! t = Some k →
  k ≠ "" →
  ∃ d w', lambda_handler env event w = (Ok d, w')
          ∧ policy_effect d = "Allow"
          ∧ principalId d = t
          ∧ usageIdentifierKey d = Some k
          ∧ context d = {[ "tenant_id" := t ]}.
Proof.
  intros Htok Hval Hmap Hten Hne Hkeys Hkey Hkne. apply truthy_true in Htok.
  eexists _, _. rewrite lambda_handler_run, Htok, Hval. cbn zeta.
  rewrite Hmap, Hten. destruct t as [|a t]; [congruence |].
  rewrite Hkeys, Hkey. destruct k as [|b k]; [congruence |].
  repeat split.
Qed.

(** C10: an entry whose value is the empty string is treated as no entry.
    Whether the identity→tenant mapping has no entry for the caller or maps
    it to [""], the outcome is the same unknown-caller Deny (principal the
    caller identity or ["unknown"], empty context, no usage key, the same
    line logged, the tenant→rate-limit-key mapping not consulted); whether
    the tenant→rate-limit-key mapping has no entry for the tenant or maps it
    to [""], the outcome is the same unmapped-tenant Deny. *)
Theorem empty_entry_is_absent_entry
    (event : Dict) (w : World) (claims : Dict) (w1 : World)
    (m : Dict) (w2 : World) :
  bearer_token event ≠ "" →
  _validate_token env (bearer_token event) w = (Ok claims, w1) →
  _get_client_tenant_map env w1 = (Ok m, w2) →
  let client_id := caller_identity claims in
  ((m !! client_id = None ∨ m !! client_id = Some "") →
   ∃ d, lambda_handler env event w
        = (Ok d, logged ("Unknown client_id=" +:+ client_id +:+
                         ", no tenant mapping found") w2)
        ∧ policy_effect d = "Deny"
        ∧ principalId d
          = (if decide (client_id = "") then "unknown" else client_id)
        ∧ context d = ∅
        ∧ usageIdentifierKey d = None)
  ∧ (∀ t km w3,
       m !! client_id = Some t →
       t ≠ "" →
       _get_tenant_api_key_map env
         (logged ("Resolved client_id=" +:+ client_id +:+
                  " -> tenant_id=" +:+ t) w2) = (Ok km, w3) →
       (km !! t = None ∨ km !! t = Some "") →
       ∃ d, lambda_handler env event w
            = (Ok d, logged ("Tenant " +:+ t +:+
                             " has no API key mapping") w3)
            ∧ policy_effect d = "Deny"
            ∧ principalId d = t
            ∧ context d = ∅
            ∧ usageIdentifierKey d = None).
Proof.
  intros Htok Hval Hmap client_id. apply truthy_true in Htok. split.
  - intros Hfalsy. eexists. rewrite lambda_handler_run, Htok, Hval. cbn zeta.
    fold client_id. rewrite Hmap.
    assert (Hpolicy :
      principalId (_build_policy (str_or client_id "unknown") "Deny"
                                 (method_arn event) None None)
      = (if decide (client_id = "") then "unknown" else client_id)).
    { cbn. unfold str_or. destruct client_id; reflexivity. }
    destruct Hfalsy as [-> | ->]; repeat split; exact Hpolicy.
  - intros t km w3 Hten Hne Hkeys Hfalsy. eexists.
    rewrite lambda_handler_run, Htok, Hval. cbn zeta. fold client_id.
    rewrite Hmap, Hten. destruct t as [|a t]; [congruence |].
    rewrite Hkeys. destruct Hfalsy as [-> | ->]; repeat split.
Qed.

(** C4: whatever the request and the state of the world, a decision that
    the entry point returns is Allow or Deny; when it is Allow it carries a
    non-empty usage key and a non-empty tenant identifier in its context
    map; when it is Deny it carries no usage key. *)
Theorem decision_invariant
    (event : Dict) (w : World) (d : Policy) (w' : World) :
  lambda_handler env event w = (Ok d, w') →
  (policy_effect d = "Allow" ∨ policy_effect d = "Deny")
  ∧ (policy_effect d = "Allow" →
     ∃ k t, usageIdentifierKey d = Some k ∧ k ≠ ""
            ∧ context d !! "tenant_id" = Some t ∧ t ≠ "")
  ∧ (policy_effect d = "Deny" → usageIdentifierKey d = None).
Proof.
  rewrite lambda_handler_run.
  destruct (truthy (bearer_token event)); [| discriminate].
  destruct (_validate_token env (bearer_token event) w) as [[claims|e] w1];
    [| discriminate].
  cbn zeta.
  destruct (_get_client_tenant_map env w1) as [[m|e] w2]; [| discriminate].
  destruct (m !! caller_identity claims) as [[|a t]|].
  1, 3: intros [= <- <-]; split; [now right |];
        split; [discriminate | reflexivity].
  destruct (_get_tenant_api_key_map env _) as [[km|e] w3]; [| discriminate].
  destruct (km !! String a t) as [[|b k]|].
  1, 3: intros [= <- <-]; split; [now right |];
        split; [discriminate | reflexivity].
  intros [= <- <-]. split; [now left |]. split; [| discriminate].
  intros _. exists (String b k), (String a t). cbn.
  rewrite lookup_insert_eq. repeat split; discriminate.
Qed.


(** C3 (as the code has it): for a resource ARN of at least six
    colon-separated segments the resource of the grant is the ARN cut inside
    its sixth segment, at the first slash when there is one and at the end
    of the segment otherwise, followed by [/*]: what is kept is the first
    five segments and the API identifier, so the pattern covers every stage
    of the API and not only the stage of the request. *)
Theorem grant_covers_whole_api
    (principal_id effect resource : string)
    (usage_key tenant_id : option string) :
  (6 ≤ length (str_split ":" resource))%nat →
  ∃ pre api rest,
    resource = pre +:+ ":" +:+ api +:+ rest
    ∧ count_char ":" pre = 4%nat
    ∧ count_char ":" api = 0%nat
    ∧ count_char "/" api = 0%nat
    ∧ (rest = "" ∨ ∃ r, rest = String "/" r ∨ rest = String ":" r)
    ∧ policy_resource
        (_build_policy principal_id effect resource usage_key tenant_id)
      = pre +:+ ":" +:+ api +:+ "/*".
Proof.
  intros Hlen. rewrite build_policy_resource.
  now apply wildcard_resource_shape.
Qed.

End Properties.

(** * The properties at concrete requests *)

(** The decision builder on the method ARN of the scenario. *)
Lemma grant_covers_whole_api_witness :
  (6 ≤ length (str_split ":" demo_arn))%nat
  ∧ ∃ pre api rest,
      demo_arn = pre +:+ ":" +:+ api +:+ rest
      ∧ count_char ":" pre = 4%nat
      ∧ count_char ":" api = 0%nat
      ∧ count_char "/" api = 0%nat
      ∧ (rest = "" ∨ ∃ r, rest = String "/" r ∨ rest = String ":" r)
      ∧ policy_resource
          (_build_policy "tenantA" "Allow" demo_arn (Some "key-789")
                         (Some "tenantA"))
        = pre +:+ ":" +:+ api +:+ "/*".
Proof.
  assert (Hlen : (6 ≤ length (str_split ":" demo_arn))%nat)
    by (vm_compute; lia).
  split; [exact Hlen |].
  exact (grant_covers_whole_api "tenantA" "Allow" demo_arn (Some "key-789")
           (Some "tenantA") Hlen).
Defined.

(** The grant for [.../a1b2c3d4e5/prod/GET/orders] is [.../a1b2c3d4e5/*],
    not [.../a1b2c3d4e5/prod/*]. *)
Lemma grant_not_scoped_to_stage : ¬ grant_covers_stage_only demo_arn.
Proof.
  intros Hclaim.
  assert (Hlen : (6 ≤ length (str_split ":" demo_arn))%nat)
    by (vm_compute; lia).
  specialize (Hclaim Hlen "tenantA" "Allow" (Some "key-789") (Some "tenantA")).
  vm_compute in Hclaim. discriminate Hclaim.
Qed.



(** The identity map is empty: client [abc123] is denied under its own
    name. *)
Lemma unknown_caller_denied_witness :
  let event := demo_event "Bearer valid.access.token" in
  let claims : Dict := {[ "client_id" := "abc123"; "token_use" := "access" ]} in
  let w1 :=
    after (_validate_token env_unknown "valid.access.token") initial_world in
  let w2 := after (_get_client_tenant_map env_unknown) w1 in
  (bearer_token event ≠ ""
   ∧ _validate_token env_unknown (bearer_token event) initial_world
     = (Ok claims, w1)
   ∧ _get_client_tenant_map env_unknown w1 = (Ok ∅, w2)
   ∧ (∅ : Dict) !! caller_identity claims = None)
  ∧ ∃ d w', lambda_handler env_unknown event initial_world = (Ok d, w')
            ∧ policy_effect d = "Deny"
            ∧ principalId d
              = (if decide (caller_identity claims = "") then "unknown"
                 else caller_identity claims)
            ∧ context d !! "tenant_id" = None
            ∧ usageIdentifierKey d = None.
Proof.
  intros event claims w1 w2.
  assert (Htok : bearer_token event ≠ "") by (vm_compute; discriminate).
  assert (Hval : _validate_token env_unknown (bearer_token event)
                   initial_world = (Ok claims, w1))
    by (vm_compute; reflexivity).
  assert (Hmap : _get_client_tenant_map env_unknown w1 = (Ok ∅, w2))
    by (vm_compute; reflexivity).
  assert (Habsent : (∅ : Dict) !! caller_identity claims = None)
    by reflexivity.
  split; [repeat split; assumption |].
  exact (unknown_caller_denied env_unknown event initial_world claims w1 ∅ w2
           Htok Hval Hmap Habsent).
Defined.

(** [tenantA] has no usage plan key: the Deny names the tenant as principal
    and its context map is empty. *)
Lemma unmapped_tenant_denied_witness :
  let event := demo_event "Bearer valid.access.token" in
  let claims : Dict := {[ "client_id" := "abc123"; "token_use" := "access" ]} in
  let m : Dict := {[ "abc123" := "tenantA" ]} in
  let km : Dict := {[ "tenantB" := "key-456" ]} in
  let w1 :=
    after (_validate_token env_unmapped "valid.access.token") initial_world in
  let w2 := after (_get_client_tenant_map env_unmapped) w1 in
  let w2' :=
    logged ("Resolved client_id=" +:+ caller_identity claims +:+
            " -> tenant_id=" +:+ "tenantA") w2 in
  let w3 := after (_get_tenant_api_key_map env_unmapped) w2' in
  (bearer_token event ≠ ""
   ∧ _validate_token env_unmapped (bearer_token event) initial_world
     = (Ok claims, w1)
   ∧ _get_client_tenant_map env_unmapped w1 = (Ok m, w2)
   ∧ m !! caller_identity claims = Some "tenantA"
   ∧ "tenantA" ≠ ""
   ∧ _get_tenant_api_key_map env_unmapped w2' = (Ok km, w3)
   ∧ km !! "tenantA" = None)
  ∧ ∃ d w', lambda_handler env_unmapped event initial_world = (Ok d, w')
            ∧ policy_effect d = "Deny"
            ∧ principalId d = "tenantA"
            ∧ context d = ∅
            ∧ usageIdentifierKey d = None.
Proof.
  intros event claims m km w1 w2 w2' w3.
  assert (Htok : bearer_token event ≠ "") by (vm_compute; discriminate).
  assert (Hval : _validate_token env_unmapped (bearer_token event)
                   initial_world = (Ok claims, w1))
    by (vm_compute; reflexivity).
  assert (Hmap : _get_client_tenant_map env_unmapped w1 = (Ok m, w2))
    by (vm_compute; reflexivity).
  assert (Hten : m !! caller_identity claims = Some "tenantA")
    by (vm_compute; reflexivity).
  assert (Hne : "tenantA" ≠ "") by discriminate.
  assert (Hkeys : _get_tenant_api_key_map env_unmapped w2' = (Ok km, w3))
    by (vm_compute; reflexivity).
  assert (Habsent : km !! "tenantA" = None) by (vm_compute; reflexivity).
  split; [repeat split; assumption |].
  exact (unmapped_tenant_denied env_unmapped event initial_world claims w1 m
           w2 "tenantA" km w3 Htok Hval Hmap Hten Hne Hkeys Habsent).
Defined.

Lemma unmapped_tenant_context_is_empty :
  ¬ unmapped_tenant_keeps_tenant_context env_unmapped
      (demo_event "Bearer valid.access.token") initial_world.
Proof.
  intros Hclaim.
  pose (claims := ({[ "client_id" := "abc123"; "token_use" := "access" ]}
                   : Dict)).
  pose (w1 := after (_validate_token env_unmapped "valid.access.token")
                initial_world).
  pose (w2 := after (_get_client_tenant_map env_unmapped) w1).
  pose (w2' := logged ("Resolved client_id=" +:+ caller_identity claims +:+
                       " -> tenant_id=" +:+ "tenantA") w2).
  destruct (Hclaim claims w1 {[ "abc123" := "tenantA" ]} w2 "tenantA"
              {[ "tenantB" := "key-456" ]}
              (after (_get_tenant_api_key_map env_unmapped) w2'))
    as (d & w' & Hrun & _ & _ & Hctx & _).
  - vm_compute. discriminate.
  - vm_compute. reflexivity.
  - vm_compute. reflexivity.
  - vm_compute. reflexivity.
  - vm_compute. reflexivity.
  - vm_compute. reflexivity.
  - vm_compute in Hrun. injection Hrun as <- _.
    vm_compute in Hctx. discriminate Hctx.
Qed.

(** The scenario of the specification: Allow for [tenantA] with
    [key-789]. *)
Lemma mapped_tenant_allowed_witness :
  let event := demo_event "Bearer valid.access.token" in
  let claims : Dict := {[ "client_id" := "abc123"; "token_use" := "access" ]} in
  let m : Dict := {[ "abc123" := "tenantA" ]} in
  let km : Dict := {[ "tenantA" := "key-789" ]} in
  let w1 :=
    after (_validate_token env_mapped "valid.access.token") initial_world in
  let w2 := after (_get_client_tenant_map env_mapped) w1 in
  let w2' :=
    logged ("Resolved client_id=" +:+ caller_identity claims +:+
            " -> tenant_id=" +:+ "tenantA") w2 in
  let w3 := after (_get_tenant_api_key_map env_mapped) w2' in
  (bearer_token event ≠ ""
   ∧ _validate_token env_mapped (bearer_token event) initial_world
     = (Ok claims, w1)
   ∧ _get_client_tenant_map env_mapped w1 = (Ok m, w2)
   ∧ m !! caller_identity claims = Some "tenantA"
   ∧ "tenantA" ≠ ""
   ∧ _get_tenant_api_key_map env_mapped w2' = (Ok km, w3)
   ∧ km !! "tenantA" = Some "key-789"
   ∧ "key-789" ≠ "")
  ∧ ∃ d w', lambda_handler env_mapped event initial_world = (Ok d, w')
            ∧ policy_effect d = "Allow"
            ∧ principalId d = "tenantA"
            ∧ usageIdentifierKey d = Some "key-789"
            ∧ context d = {[ "tenant_id" := "tenantA" ]}.
Proof.
  intros event claims m km w1 w2 w2' w3.
  assert (Htok : bearer_token event ≠ "") by (vm_compute; discriminate).
  assert (Hval : _validate_token env_mapped (bearer_token event)
                   initial_world = (Ok claims, w1))
    by (vm_compute; reflexivity).
  assert (Hmap : _get_client_tenant_map env_mapped w1 = (Ok m, w2))
    by (vm_compute; reflexivity).
  assert (Hten : m !! caller_identity claims = Some "tenantA")
    by (vm_compute; reflexivity).
  assert (Hne : "tenantA" ≠ "") by discriminate.
  assert (Hkeys : _get_tenant_api_key_map env_mapped w2' = (Ok km, w3))
    by (vm_compute; reflexivity).
  assert (Hkey : km !! "tenantA" = Some "key-789")
    by (vm_compute; reflexivity).
  assert (Hkne : "key-789" ≠ "") by discriminate.
  split; [repeat split; assumption |].
  exact (mapped_tenant_allowed env_mapped event initial_world claims w1 m
           w2 "tenantA" km w3 "key-789" Htok Hval Hmap Hten Hne Hkeys Hkey
           Hkne).
Defined.

(** [tenantA] is mapped, to the empty string: the decision is a Deny. *)
Lemma empty_rate_limit_key_is_denied :
  ¬ mapped_tenant_is_allowed env_empty_key
      (demo_event "Bearer valid.access.token") initial_world.
Proof.
  intros Hclaim.
  pose (claims := ({[ "client_id" := "abc123"; "token_use" := "access" ]}
                   : Dict)).
  pose (w1 := after (_validate_token env_empty_key "valid.access.token")
                initial_world).
  pose (w2 := after (_get_client_tenant_map env_empty_key) w1).
  pose (w2' := logged ("Resolved client_id=" +:+ caller_identity claims +:+
                       " -> tenant_id=" +:+ "tenantA") w2).
  destruct (Hclaim claims w1 {[ "abc123" := "tenantA" ]} w2 "tenantA"
              {[ "tenantA" := "" ]}
              (after (_get_tenant_api_key_map env_empty_key) w2') "")
    as (d & w' & Hrun & Heff & _).
  - vm_compute. discriminate.
  - vm_compute. reflexivity.
  - vm_compute. reflexivity.
  - vm_compute. reflexivity.
  - vm_compute. reflexivity.
  - vm_compute. reflexivity.
  - vm_compute in Hrun. injection Hrun as <- _.
    vm_compute in Heff. discriminate Heff.
Qed.

(** The invariant on the Allow of the scenario. *)
Lemma decision_invariant_witness :
  let event := demo_event "Bearer valid.access.token" in
  let d := _build_policy "tenantA" "Allow" demo_arn (Some "key-789")
             (Some "tenantA") in
  let w' := after (lambda_handler env_mapped event) initial_world in
  lambda_handler env_mapped event initial_world = (Ok d, w')
  ∧ (policy_effect d = "Allow" ∨ policy_effect d = "Deny")
  ∧ (policy_effect d = "Allow" →
     ∃ k t, usageIdentifierKey d = Some k ∧ k ≠ ""
            ∧ context d !! "tenant_id" = Some t ∧ t ≠ "")
  ∧ (policy_effect d = "Deny" → usageIdentifierKey d = None).
Proof.
  intros event d w'.
  assert (Hrun : lambda_handler env_mapped event initial_world = (Ok d, w'))
    by (vm_compute; reflexivity).
  split; [exact Hrun |].
  exact (decision_invariant env_mapped event initial_world d w' Hrun).
Defined.

(** The identity map was loaded 400 seconds ago and the store is down: the
    loaded map is served, the cache keeps it with its old expiry, and a
    second get reads the store again. *)
Lemma failed_refresh_serves_stale_witness :
  let path := "/api/client-tenant-map" in
  let w := seeded_world 400 in
  let c := cache_of ClientTenantCache w in
  let now := time_time env_store_down (ticks w) in
  (¬ (data c ≠ ∅ ∧ (now < expires_at c)%Q)
   ∧ ssm_get_parameter_json env_store_down (S (ticks w)) path
     = Raise "AccessDeniedException")
  ∧ ∃ w', _get_ssm_json env_store_down path ClientTenantCache w
          = (Ok (data c), w')
          ∧ (∀ r, cache_of r w' = cache_of r w)
          ∧ jwks_cache w' = jwks_cache w
          ∧ output w'
            = output w ++
              [SsmGetParameter path;
               Printed ("Failed to load SSM parameter " +:+ path +:+ ": "
                        +:+ "AccessDeniedException")]
          ∧ ∀ w2,
              cache_of ClientTenantCache w2 = cache_of ClientTenantCache w' →
              (now <= time_time env_store_down (ticks w2))%Q →
              ∃ m w2', _get_ssm_json env_store_down path ClientTenantCache w2
                       = (Ok m, w2')
                       ∧ ssm_reads (output w2')
                         = ssm_reads (output w2) ++ [path].
Proof.
  intros path w c now.
  assert (Hstale : ¬ (data c ≠ ∅ ∧ (now < expires_at c)%Q)).
  { intros [_ Hnow]. vm_compute in Hnow. discriminate Hnow. }
  assert (Hload : ssm_get_parameter_json env_store_down (S (ticks w)) path
                  = Raise "AccessDeniedException") by reflexivity.
  split; [split; assumption |].
  exact (failed_refresh_serves_stale env_store_down path ClientTenantCache w
           "AccessDeniedException" Hstale Hload).
Defined.

(** The identity map expired just now and the store is down; the clock is
    then set back by a second: the next get finds the old data fresh again
    and serves it without a read. *)
Lemma failed_refresh_not_retried_when_clock_steps_back :
  ¬ failed_refresh_retried_at_once env_clock_back "/api/client-tenant-map"
      ClientTenantCache (seeded_world 300).
Proof.
  intros Hclaim.
  destruct (Hclaim "AccessDeniedException")
    as (w' & Hrun & _ & m & w'' & Hnext & Hreads).
  - intros [_ Hnow]. vm_compute in Hnow. discriminate Hnow.
  - reflexivity.
  - vm_compute in Hrun. injection Hrun as <-.
    vm_compute in Hnext. injection Hnext as _ <-.
    vm_compute in Hreads. discriminate Hreads.
Qed.

(** The identity map was loaded 100 seconds ago: it is served without a
    read. On a cold process the parameter is read once and cached for 300
    seconds. *)
Lemma mapping_cache_get_witness :
  let path := "/api/client-tenant-map" in
  let warm := seeded_world 100 in
  let cold := initial_world in
  ((data (cache_of ClientTenantCache warm) ≠ ∅
    ∧ (time_time env_mapped (ticks warm)
       < expires_at (cache_of ClientTenantCache warm))%Q)
   ∧ ∃ w', _get_ssm_json env_mapped path ClientTenantCache warm
           = (Ok (data (cache_of ClientTenantCache warm)), w')
           ∧ output w' = output warm
           ∧ ∀ r, cache_of r w' = cache_of r warm)
  ∧ (¬ (data (cache_of ClientTenantCache cold) ≠ ∅
        ∧ (time_time env_mapped (ticks cold)
           < expires_at (cache_of ClientTenantCache cold))%Q)
     ∧ ∃ m w', _get_ssm_json env_mapped path ClientTenantCache cold
               = (Ok m, w')
               ∧ ssm_reads (output w') = ssm_reads (output cold) ++ [path]
               ∧ ∀ loaded,
                   ssm_get_parameter_json env_mapped (S (ticks cold)) path
                   = Ok loaded →
                   m = loaded
                   ∧ cache_of ClientTenantCache w'
                     = {| data := loaded;
                          expires_at :=
                            (time_time env_mapped (ticks cold) + 300)%Q |}).
Proof.
  intros path warm cold. split.
  - assert (Hdata : data (cache_of ClientTenantCache warm) ≠ ∅)
      by (apply dict_truthy_true; vm_compute; reflexivity).
    assert (Hnow : (time_time env_mapped (ticks warm)
                    < expires_at (cache_of ClientTenantCache warm))%Q)
      by (vm_compute; reflexivity).
    split; [split; assumption |].
    exact (proj1 (mapping_cache_get env_mapped path ClientTenantCache warm)
             Hdata Hnow).
  - assert (Hstale : ¬ (data (cache_of ClientTenantCache cold) ≠ ∅
                        ∧ (time_time env_mapped (ticks cold)
                           < expires_at (cache_of ClientTenantCache cold))%Q)).
    { intros [Hdata _]. now apply Hdata. }
    split; [exact Hstale |].
    exact (proj2 (mapping_cache_get env_mapped path ClientTenantCache cold)
             Hstale).
Defined.



(** Client [abc123] mapped to the empty string, and [tenantA] mapped to the
    empty string. *)
Lemma empty_entry_is_absent_entry_witness :
  let event := demo_event "Bearer valid.access.token" in
  let claims : Dict := {[ "client_id" := "abc123"; "token_use" := "access" ]} in
  let client_id := caller_identity claims in
  let run env :=
    let w1 := after (_validate_token env "valid.access.token") initial_world in
    (w1, after (_get_client_tenant_map env) w1) in
  (∃ d, lambda_handler env_empty_tenant event initial_world
        = (Ok d, logged ("Unknown client_id=" +:+ client_id +:+
                         ", no tenant mapping found")
                   (snd (run env_empty_tenant)))
        ∧ policy_effect d = "Deny"
        ∧ principalId d
          = (if decide (client_id = "") then "unknown" else client_id)
        ∧ context d = ∅
        ∧ usageIdentifierKey d = None)
  ∧ (∃ d, lambda_handler env_empty_key event initial_world
          = (Ok d, logged ("Tenant " +:+ "tenantA" +:+
                           " has no API key mapping")
                     (after (_get_tenant_api_key_map env_empty_key)
                        (logged ("Resolved client_id=" +:+ client_id +:+
                                 " -> tenant_id=" +:+ "tenantA")
                           (snd (run env_empty_key)))))
          ∧ policy_effect d = "Deny"
          ∧ principalId d = "tenantA"
          ∧ context d = ∅
          ∧ usageIdentifierKey d = None).
Proof.
  intros event claims client_id run.
  assert (Htok : bearer_token event ≠ "") by (vm_compute; discriminate).
  split.
  - assert (Hval : _validate_token env_empty_tenant (bearer_token event)
                     initial_world = (Ok claims, fst (run env_empty_tenant)))
      by (vm_compute; reflexivity).
    assert (Hmap : _get_client_tenant_map env_empty_tenant
                     (fst (run env_empty_tenant))
                   = (Ok {[ "abc123" := "" ]}, snd (run env_empty_tenant)))
      by (vm_compute; reflexivity).
    refine (proj1 (empty_entry_is_absent_entry env_empty_tenant event
                     initial_world claims _ _ _ Htok Hval Hmap) _).
    right. vm_compute. reflexivity.
  - assert (Hval : _validate_token env_empty_key (bearer_token event)
                     initial_world = (Ok claims, fst (run env_empty_key)))
      by (vm_compute; reflexivity).
    assert (Hmap : _get_client_tenant_map env_empty_key
                     (fst (run env_empty_key))
                   = (Ok {[ "abc123" := "tenantA" ]},
                      snd (run env_empty_key)))
      by (vm_compute; reflexivity).
    refine (proj2 (empty_entry_is_absent_entry env_empty_key event
                     initial_world claims _ _ _ Htok Hval Hmap)
              "tenantA" {[ "tenantA" := "" ]} _ _ _ _ _).
    + vm_compute. reflexivity.
    + discriminate.
    + vm_compute. reflexivity.
    + right. vm_compute. reflexivity.
Defined.

(** ** The two scenarios of the specification, run from a cold process *)

Example scenario_allow :
  fst (lambda_handler env_mapped (demo_event "Bearer valid.access.token")
         initial_world)
  = Ok {| principalId := "tenantA";
          policyDocument :=
            {| Version := "2012-10-17";
               Statements :=
                 [ {| Action := "execute-api:Invoke";
                      Effect := "Allow";
                      Resource :=
                        "arn:aws:execute-api:us-east-1:123456789012:a1b2c3d4e5/*"
                   |} ] |};
          context := {[ "tenant_id" := "tenantA" ]};
          usageIdentifierKey := Some "key-789" |}.
Proof. vm_compute. reflexivity. Qed.

Example scenario_allow_log :
  output (after (lambda_handler env_mapped
                   (demo_event "bearer valid.access.token")) initial_world)
  = [ UrlOpen
        "https://cognito-idp.us-east-1.amazonaws.com/us-east-1_EXAMPLE/.well-known/jwks.json";
      SsmGetParameter "/api/client-tenant-map";
      Printed "Resolved client_id=abc123 -> tenant_id=tenantA";
      SsmGetParameter "/api/tenant-api-key-map";
      Printed "Authorized tenant=tenantA, applying usage plan key" ].
Proof. vm_compute. reflexivity. Qed.

Example scenario_unknown_caller :
  fst (lambda_handler env_unknown (demo_event "Bearer valid.access.token")
         initial_world)
  = Ok {| principalId := "abc123";
          policyDocument :=
            {| Version := "2012-10-17";
               Statements :=
                 [ {| Action := "execute-api:Invoke";
                      Effect := "Deny";
                      Resource :=
                        "arn:aws:execute-api:us-east-1:123456789012:a1b2c3d4e5/*"
                   |} ] |};
          context := ∅;
          usageIdentifierKey := None |}.
Proof. vm_compute. reflexivity. Qed.

Example scenario_expired_token :
  fst (lambda_handler env_mapped (demo_event "Bearer expired.access.token")
         initial_world)
  = Raise "Unauthorized".
Proof. vm_compute. reflexivity. Qed.

Example scenario_no_credential :
  fst (lambda_handler env_mapped {[ "methodArn" := demo_arn ]} initial_world)
  = Raise "Unauthorized".
Proof. vm_compute. reflexivity. Qed.

(** * Further properties of the authorizer *)

Lemma url_opens_app (o1 o2 : list IO) :
  url_opens (o1 ++ o2) = url_opens o1 ++ url_opens o2.
Proof.
  induction o1 as [|[p|u|l] o1 IH]; simpl; [reflexivity | | |];
    now rewrite ?IH.
Qed.

Lemma get_jwks_run {Key : Type} (env : @Env Key) (w : World) :
  _get_jwks env w =
  match jwks_cache w with
  | Some jwks => (Ok jwks, w)
  | None =>
      let w0 := after tick (after (emit (UrlOpen (JWKS_URL env))) w) in
      match urlopen_jwks env (ticks w) (JWKS_URL env) with
      | Ok jwks => (Ok jwks, after (write_jwks_cache jwks) w0)
      | Raise e => (Raise e, w0)
      end
  end.
Proof.
  unfold _get_jwks, read_jwks_cache, write_jwks_cache. run.
  destruct (jwks_cache w) eqn:Hc; [reflexivity |]. run.
  destruct (urlopen_jwks env (ticks w) (JWKS_URL env)); run;
    rewrite ?Hc; reflexivity.
Qed.

Section KeySet.

Context {Key : Type} (env : @Env Key).

(** ** Key set cache *)

(** What [_get_jwks] leaves alone and what it adds to the log. *)
Lemma get_jwks_frame w r w' :
  _get_jwks env w = (r, w') →
  (∀ c, cache_of c w' = cache_of c w)
  ∧ ssm_reads (output w') = ssm_reads (output w)
  ∧ (ticks w ≤ ticks w')%nat
  ∧ match r with
    | Ok jwks => jwks_cache w' = Some jwks
    | Raise _ => jwks_cache w' = None
    end
  ∧ (match jwks_cache w with
     | Some _ => output w' = output w
     | None => output w' = output w ++ [UrlOpen (JWKS_URL env)]
     end).
Proof.
  rewrite get_jwks_run. destruct (jwks_cache w) as [jwks|] eqn:Hc.
  - intros [= <- <-]. rewrite Hc. repeat split; reflexivity.
  - cbn zeta.
    destruct (urlopen_jwks env (ticks w) (JWKS_URL env));
      intros [= <- <-]; unfold write_jwks_cache; run;
      (split; [intros []; reflexivity |]);
      rewrite ssm_reads_app, app_nil_r, ?Hc;
      repeat split; try reflexivity; lia.
Qed.

(** X1: once [_get_jwks] has returned a key set, every later call in the
    process returns that same key set without fetching anything and without
    changing the world, whatever the endpoint would answer by then. *)
Theorem key_set_fetched_once
    (w : World) (jwks : list Dict) (w1 : World) :
  _get_jwks env w = (Ok jwks, w1) →
  ∀ (env' : @Env Key) (w2 : World),
    jwks_cache w2 = jwks_cache w1 →
    _get_jwks env' w2 = (Ok jwks, w2).
Proof.
  intros Hrun env' w2 Hsame.
  destruct (get_jwks_frame _ _ _ Hrun) as (_ & _ & _ & Hcached & _).
  rewrite (get_jwks_run env'), Hsame, Hcached. reflexivity.
Qed.

(** X2: a fetch of the key set that raises (the endpoint cannot be reached,
    the body cannot be read, or it is not JSON) is not remembered. The call
    raises the error of the fetch, the key set stays unfetched and both
    mapping caches are as before; any later call made while no key set is
    cached goes to the endpoint again. *)
Theorem key_set_failure_not_cached (w : World) (e : string) :
  jwks_cache w = None →
  urlopen_jwks env (ticks w) (JWKS_URL env) = Raise e →
  ∃ w', _get_jwks env w = (Raise e, w')
        ∧ jwks_cache w' = None
        ∧ (∀ c, cache_of c w' = cache_of c w)
        ∧ output w' = output w ++ [UrlOpen (JWKS_URL env)]
        ∧ ∀ w2, jwks_cache w2 = jwks_cache w' →
                ∃ r w2', _get_jwks env w2 = (r, w2')
                         ∧ output w2' = output w2 ++ [UrlOpen (JWKS_URL env)].
Proof.
  intros Hnone Hfetch. eexists. rewrite get_jwks_run, Hnone. cbn zeta.
  rewrite Hfetch. split; [reflexivity |]. run.
  split; [exact Hnone |]. split; [intros []; reflexivity |].
  split; [reflexivity |].
  intros w2 Hw2. rewrite Hnone in Hw2.
  destruct (_get_jwks env w2) as [r w2'] eqn:Hrun2. exists r, w2'.
  split; [reflexivity |].
  destruct (get_jwks_frame _ _ _ Hrun2) as (_ & _ & _ & _ & Hout).
  now rewrite Hw2 in Hout.
Qed.

(** ** Verification key lookup *)

Lemma find_public_key_ok (keys : list Dict) (kid : string) (key : Key) :
  find_public_key env keys kid = Ok key →
  ∃ pre key_data post,
    keys = pre ++ key_data :: post
    ∧ (∀ d, d ∈ pre → ∃ k, d !! "kid" = Some k ∧ k ≠ kid)
    ∧ key_data !! "kid" = Some kid
    ∧ RSAAlgorithm_from_jwk env key_data = Ok key.
Proof.
  induction keys as [|d keys IH]; simpl; [discriminate |].
  destruct (d !! "kid") as [k|] eqn:Hk; [| discriminate].
  destruct (String.eqb_spec k kid) as [->|Hne].
  - intros Hfrom. exists [], d, keys. repeat split; try assumption.
    intros d' Hin. inversion Hin.
  - intros Hfind. destruct (IH Hfind) as (pre & kd & post & -> & Hpre & H1 & H2).
    exists (d :: pre), kd, post. repeat split; try assumption.
    intros d' Hin. apply elem_of_cons in Hin as [-> | Hin]; eauto.
Qed.

Lemma find_public_key_skip (pre rest : list Dict) (kid : string) :
  (∀ d, d ∈ pre → ∃ k, d !! "kid" = Some k ∧ k ≠ kid) →
  find_public_key env (pre ++ rest) kid = find_public_key env rest kid.
Proof.
  induction pre as [|d pre IH]; intros Hpre; [reflexivity |]. simpl.
  destruct (Hpre d) as (k & -> & Hne); [left |].
  destruct (String.eqb_spec k kid); [contradiction |].
  apply IH. intros d' Hin. apply Hpre. now right.
Qed.

(** X3: a verification key that [_get_public_key] returns was built by
    [RSAAlgorithm.from_jwk] from the first entry of the key set whose [kid]
    is the requested one, every entry before it carrying another [kid]; the
    key set it was taken from is the one now cached. *)
Theorem public_key_is_first_match
    (kid : string) (w : World) (key : Key) (w' : World) :
  _get_public_key env kid w = (Ok key, w') →
  ∃ pre key_data post,
    jwks_cache w' = Some (pre ++ key_data :: post)
    ∧ (∀ d, d ∈ pre → ∃ k, d !! "kid" = Some k ∧ k ≠ kid)
    ∧ key_data !! "kid" = Some kid
    ∧ RSAAlgorithm_from_jwk env key_data = Ok key.
Proof.
  unfold _get_public_key. run.
  destruct (_get_jwks env w) as [[jwks|e] w0] eqn:Hjwks; [| discriminate].
  destruct (find_public_key env jwks kid) as [key0|e] eqn:Hfind;
    intros [= <- <-].
  destruct (find_public_key_ok _ _ _ Hfind)
    as (pre & kd & post & -> & Hpre & Hkid & Hfrom).
  destruct (get_jwks_frame _ _ _ Hjwks) as (_ & _ & _ & Hcached & _).
  exists pre, kd, post. repeat split; assumption.
Qed.

(** X4: looking up a [kid] that no entry of the key set carries raises
    [No matching key found for kid=...] (so does an empty key set); an entry
    without a [kid] field that is reached before any match raises the
    [KeyError] ['kid'], even when a later entry would match. *)
Theorem public_key_lookup_failures
    (kid : string) (w : World) (jwks : list Dict) (w' : World) :
  _get_jwks env w = (Ok jwks, w') →
  ((∀ d, d ∈ jwks → ∃ k, d !! "kid" = Some k ∧ k ≠ kid) →
   _get_public_key env kid w
   = (Raise ("No matching key found for kid=" +:+ kid), w'))
  ∧ (∀ pre d post,
       jwks = pre ++ d :: post →
       (∀ d', d' ∈ pre → ∃ k, d' !! "kid" = Some k ∧ k ≠ kid) →
       d !! "kid" = None →
       _get_public_key env kid w = (Raise "'kid'", w')).
Proof.
  intros Hjwks. unfold _get_public_key. run. rewrite Hjwks. split.
  - intros Hall. f_equal.
    rewrite <- (app_nil_r jwks). now rewrite find_public_key_skip.
  - intros pre d post -> Hpre Hnone. f_equal.
    rewrite find_public_key_skip by assumption. simpl. now rewrite Hnone.
Qed.

End KeySet.

(** ** The resource pattern *)

Lemma str_split_app (sep : ascii) (a b : string) :
  str_split sep (a +:+ String sep b) = str_split sep a ++ str_split sep b.
Proof.
  induction a as [|c a IH]; simpl.
  - now rewrite Ascii.eqb_refl.
  - destruct (Ascii.eqb c sep); [now rewrite IH |].
    rewrite IH. destruct (str_split_cons sep a) as (p & ps & ->).
    reflexivity.
Qed.

Lemma str_split_none (sep : ascii) (a : string) :
  count_char sep a = 0%nat → str_split sep a = [a].
Proof.
  induction a as [|c a IH]; simpl; [reflexivity |].
  destruct (Ascii.eqb c sep); [discriminate |].
  intros Hc. now rewrite IH.
Qed.

Lemma str_split_length (sep : ascii) (s : string) :
  length (str_split sep s) = S (count_char sep s).
Proof.
  induction s as [|c s IH]; simpl; [reflexivity |].
  destruct (Ascii.eqb c sep); simpl; [now rewrite IH |].
  destruct (str_split_cons sep s) as (p & ps & Hs).
  rewrite Hs in *. exact IH.
Qed.

Lemma str_split_hd_app (sep : ascii) (a b : string) :
  count_char sep a = 0%nat →
  hd "" (str_split sep (a +:+ b)) = a +:+ hd "" (str_split sep b).
Proof.
  induction a as [|c a IH]; simpl; [reflexivity |].
  destruct (Ascii.eqb c sep); [discriminate |].
  intros Hc. specialize (IH Hc).
  destruct (str_split_cons sep (a +:+ b)) as (p & ps & Hs).
  rewrite Hs in *. simpl in *. now rewrite IH.
Qed.

(** The pattern computed from an ARN given by its parts. *)
Lemma wildcard_resource_of_parts (pre api rest : string) :
  count_char ":" pre = 4%nat →
  count_char ":" api = 0%nat →
  count_char "/" api = 0%nat →
  (rest = "" ∨ ∃ r, rest = String "/" r ∨ rest = String ":" r) →
  wildcard_resource (pre +:+ ":" +:+ api +:+ rest)
  = pre +:+ ":" +:+ api +:+ "/*".
Proof.
  intros Hpre Hapi Hslash Hrest. unfold wildcard_resource.
  change (pre +:+ ":" +:+ api +:+ rest)
    with (pre +:+ String ":" (api +:+ rest)).
  rewrite str_split_app.
  pose proof (str_split_length ":" pre) as Hlen. rewrite Hpre in Hlen.
  pose proof (str_join_split ":" pre) as Hjoin.
  destruct (str_split ":" pre) as [|p0 [|p1 [|p2 [|p3 [|p4 [|p5 tl]]]]]];
    try discriminate Hlen.
  destruct (str_split_cons ":" (api +:+ rest)) as (q & qs & Hq).
  pose proof (str_split_hd_app ":" api rest Hapi) as Hhd.
  rewrite Hq in *. cbn [hd] in Hhd. cbn [app length Nat.leb take firstn nth].
  rewrite Hjoin. do 2 f_equal.
  assert (Hsixth : hd "" (str_split "/" q) = api).
  { rewrite Hhd. destruct Hrest as [-> | (r & [-> | ->])].
    - cbn [str_split hd]. rewrite append_nil_r.
      now rewrite (str_split_none "/" api Hslash).
    - cbn [str_split Ascii.eqb Bool.eqb]. simpl.
      destruct (str_split_cons ":" r) as (x & xs & ->). cbn [hd].
      replace (api +:+ String "/" x) with (api +:+ String "/" x)
        by reflexivity.
      rewrite str_split_app, (str_split_none "/" api Hslash). reflexivity.
    - simpl. rewrite append_nil_r.
      now rewrite (str_split_none "/" api Hslash). }
  now rewrite Hsixth.
Qed.

(** X5: method ARNs of the same API get the same grant. When two ARNs
    share their first five segments and the API identifier that opens the
    sixth, the resource pattern of the decision is the same for both,
    whatever stage, method and path follow: that common part followed by
    [/*]. *)
Theorem grant_same_for_every_path
    (pre api rest1 rest2 principal_id effect : string)
    (usage_key tenant_id : option string) :
  count_char ":" pre = 4%nat →
  count_char ":" api = 0%nat →
  count_char "/" api = 0%nat →
  policy_resource
    (_build_policy principal_id effect
       (pre +:+ ":" +:+ api +:+ String "/" rest1) usage_key tenant_id)
  = pre +:+ ":" +:+ api +:+ "/*"
  ∧ policy_resource
      (_build_policy principal_id effect
         (pre +:+ ":" +:+ api +:+ String "/" rest1) usage_key tenant_id)
    = policy_resource
        (_build_policy principal_id effect
           (pre +:+ ":" +:+ api +:+ String "/" rest2) usage_key tenant_id).
Proof.
  intros Hpre Hapi Hslash. rewrite !build_policy_resource.
  rewrite !wildcard_resource_of_parts by eauto. split; reflexivity.
Qed.

(** X6: the resource pattern is a fixed point of the rewriting: building a
    decision for the pattern of a decision gives that pattern again,
    whatever the ARN (short ARNs and ["*"] included). *)
Theorem grant_pattern_idempotent
    (principal_id effect resource : string)
    (usage_key tenant_id : option string) :
  policy_resource
    (_build_policy principal_id effect
       (policy_resource
          (_build_policy principal_id effect resource usage_key tenant_id))
       usage_key tenant_id)
  = policy_resource
      (_build_policy principal_id effect resource usage_key tenant_id).
Proof.
  rewrite !build_policy_resource.
  destruct (le_lt_dec 6 (length (str_split ":" resource))) as [Hlong|Hshort].
  - destruct (wildcard_resource_shape resource Hlong)
      as (pre & api & rest & _ & Hpre & Hapi & Hslash & _ & ->).
    apply wildcard_resource_of_parts; eauto.
  - assert (Hid : wildcard_resource resource = resource).
    { unfold wildcard_resource.
      destruct (Nat.leb_spec 6 (length (str_split ":" resource)));
        [lia | reflexivity]. }
    now rewrite !Hid.
Qed.

Section MappingCache.

Context {Key : Type} (env : @Env Key).

(** ** The mapping cache over several gets *)

(** X7: the two mapping caches do not share state. A get on one of them,
    whatever its outcome, leaves the data and the expiry of the other as
    they were, and neither touches the cached key set nor fetches it. *)
Theorem mapping_caches_independent
    (path : string) (cache : CacheRef) (w : World)
    (r : Result Dict) (w' : World) :
  _get_ssm_json env path cache w = (r, w') →
  (∀ other, other ≠ cache → cache_of other w' = cache_of other w)
  ∧ jwks_cache w' = jwks_cache w
  ∧ url_opens (output w') = url_opens (output w).
Proof.
  unfold _get_ssm_json. destruct cache; run.
  all: destruct (dict_truthy _ && Qltb _ _); run.
  all: try destruct (ssm_get_parameter_json env _ path); run.
  all: intros [= <- <-]; cbn [jwks_cache output].
  all: rewrite ?url_opens_app, ?app_nil_r.
  all: split; [intros [] Hne; try reflexivity; congruence |].
  all: split; reflexivity.
Qed.


(** X9: an empty mapping is never served from the cache. When the
    parameter holds the empty object the get returns it, and every later get
    made while the cache is in that state reads the store again, whatever
    the clock says: the expiry that was written does not count. *)
Theorem empty_mapping_always_reloaded
    (path : string) (cache : CacheRef) (w : World) :
  ¬ (data (cache_of cache w) ≠ ∅
     ∧ (time_time env (ticks w) < expires_at (cache_of cache w))%Q) →
  ssm_get_parameter_json env (S (ticks w)) path = Ok ∅ →
  ∃ w', _get_ssm_json env path cache w = (Ok ∅, w')
        ∧ expires_at (cache_of cache w')
          = (time_time env (ticks w) + 300)%Q
        ∧ ∀ (env' : @Env Key) (path' : string) (w2 : World),
            cache_of cache w2 = cache_of cache w' →
            ∃ m w2', _get_ssm_json env' path' cache w2 = (Ok m, w2')
                     ∧ ssm_reads (output w2')
                       = ssm_reads (output w2) ++ [path'].
Proof.
  intros Hstale Hload. eexists.
  split; [exact (get_ssm_json_load env _ _ _ _ Hstale Hload) |].
  split; [destruct cache; reflexivity |].
  intros env' path' w2 Hcache. apply get_ssm_json_miss.
  rewrite Hcache. intros [Hdata _]. apply Hdata.
  destruct cache; reflexivity.
Qed.

End MappingCache.

Section Validation.

Context {Key : Type} (env : @Env Key).

(** ** Token validation *)

Lemma get_public_key_run kid w :
  _get_public_key env kid w =
  match _get_jwks env w with
  | (Ok jwks, w0) => (find_public_key env jwks kid, w0)
  | (Raise e, w0) => (Raise e, w0)
  end.
Proof.
  unfold _get_public_key. run.
  destruct (_get_jwks env w) as [[jwks|e] w0]; reflexivity.
Qed.

Lemma validate_token_run token w :
  _validate_token env token w =
  match jwt_get_unverified_header env token with
  | Raise e => (Raise e, w)
  | Ok header =>
      match header !! "kid" with
      | None => (Raise "'kid'", w)
      | Some kid =>
          match _get_public_key env kid w with
          | (Raise e, w0) => (Raise e, w0)
          | (Ok key, w0) =>
              match jwt_decode env (ticks w0) token key with
              | Raise e => (Raise e, after tick w0)
              | Ok claims =>
                  if bool_decide (claims !! "token_use" = Some "access")
                  then (Ok claims, after tick w0)
                  else (Raise "token_use must be 'access'", after tick w0)
              end
          end
      end
  end.
Proof.
  unfold _validate_token. run.
  destruct (jwt_get_unverified_header env token) as [header|]; [| reflexivity].
  destruct (header !! "kid") as [kid|]; run; [| reflexivity].
  destruct (_get_public_key env kid w) as [[key|] w0]; [| reflexivity].
  run. destruct (jwt_decode env (ticks w0) token key) as [c|]; [| reflexivity].
  destruct (bool_decide (c !! "token_use" = Some "access")); reflexivity.
Qed.

(** Validation leaves the mapping caches alone and never reads the
    parameter store; with the key set cached it fetches nothing. *)
Lemma validate_token_frame token w r w1 :
  _validate_token env token w = (r, w1) →
  (∀ c, cache_of c w1 = cache_of c w)
  ∧ ssm_reads (output w1) = ssm_reads (output w)
  ∧ (∀ jwks, jwks_cache w = Some jwks →
       jwks_cache w1 = Some jwks
       ∧ output w1 = output w
       ∧ match r with
         | Ok _ => ticks w1 = S (ticks w)
         | Raise _ => True
         end).
Proof.
  rewrite validate_token_run.
  destruct (jwt_get_unverified_header env token) as [header|].
  2: { intros [= <- <-]. repeat split; intros; assumption || reflexivity. }
  destruct (header !! "kid") as [kid|].
  2: { intros [= <- <-]. repeat split; intros; assumption || reflexivity. }
  rewrite get_public_key_run.
  destruct (_get_jwks env w) as [[jwks|e] w0] eqn:Hjwks.
  2: { intros [= <- <-].
       destruct (get_jwks_frame env _ _ _ Hjwks) as (Hc & Hs & _ & Hn & Ho).
       split; [exact Hc |]. split; [exact Hs |].
       intros jwks Hcached. rewrite Hcached in Ho. rewrite Hn in *.
       rewrite get_jwks_run, Hcached in Hjwks. discriminate Hjwks. }
  destruct (get_jwks_frame env _ _ _ Hjwks) as (Hc & Hs & _ & Hn & Ho).
  assert (Hkeep : ∀ j, jwks_cache w = Some j →
                        jwks_cache w0 = Some j ∧ output w0 = output w
                        ∧ ticks w0 = ticks w).
  { intros j Hcached. rewrite get_jwks_run, Hcached in Hjwks.
    injection Hjwks as <- <-. repeat split. exact Hcached. }
  destruct (find_public_key env jwks kid) as [key|e].
  2: { intros [= <- <-]. split; [exact Hc |]. split; [exact Hs |].
       intros j Hj. destruct (Hkeep j Hj) as (? & ? & ?). repeat split;
       assumption. }
  assert (Htick :
    (∀ c, cache_of c (after tick w0) = cache_of c w)
    ∧ ssm_reads (output (after tick w0)) = ssm_reads (output w)
    ∧ ∀ j, jwks_cache w = Some j →
           jwks_cache (after tick w0) = Some j
           ∧ output (after tick w0) = output w
           ∧ ticks (after tick w0) = S (ticks w)).
  { split; [intros c; rewrite <- Hc; destruct c; reflexivity |].
    split; [exact Hs |].
    intros j Hj. destruct (Hkeep j Hj) as (H1 & H2 & H3). run.
    repeat split; congruence. }
  destruct Htick as (Hc' & Hs' & Hk').
  destruct (jwt_decode env (ticks w0) token key) as [c|e].
  2: { intros [= <- <-]. split; [exact Hc' |]. split; [exact Hs' |].
       intros j Hj. destruct (Hk' j Hj) as (? & ? & ?). repeat split;
       assumption. }
  destruct (bool_decide (c !! "token_use" = Some "access"));
    intros [= <- <-]; (split; [exact Hc' |]); (split; [exact Hs' |]);
    intros j Hj; destruct (Hk' j Hj) as (? & ? & ?); repeat split;
    assumption.
Qed.

(** X10: claims come out of the validator only along the whole chain.
    When [_validate_token] returns claims, the header of the token named a
    [kid], the key set now cached has an entry with that [kid] (the first
    such entry), the verification key was built from that entry, the library
    accepted the token under that key (signature and expiry), and the
    claims carry [token_use = "access"]. *)
Theorem validated_claims_sound
    (token : string) (w : World) (claims : Dict) (w1 : World) :
  _validate_token env token w = (Ok claims, w1) →
  ∃ header kid pre key_data post key w0,
    jwt_get_unverified_header env token = Ok header
    ∧ header !! "kid" = Some kid
    ∧ jwks_cache w1 = Some (pre ++ key_data :: post)
    ∧ (∀ d, d ∈ pre → ∃ k, d !! "kid" = Some k ∧ k ≠ kid)
    ∧ key_data !! "kid" = Some kid
    ∧ RSAAlgorithm_from_jwk env key_data = Ok key
    ∧ jwt_decode env (ticks w0) token key = Ok claims
    ∧ w1 = after tick w0
    ∧ claims !! "token_use" = Some "access".
Proof.
  rewrite validate_token_run.
  destruct (jwt_get_unverified_header env token) as [header|];
    [| discriminate].
  destruct (header !! "kid") as [kid|] eqn:Hkid; [| discriminate].
  rewrite get_public_key_run.
  destruct (_get_jwks env w) as [[jwks|e] w0] eqn:Hjwks; [| discriminate].
  destruct (find_public_key env jwks kid) as [key|e] eqn:Hfind;
    [| discriminate].
  destruct (jwt_decode env (ticks w0) token key) as [c|e] eqn:Hdecode;
    [| discriminate].
  destruct (bool_decide (c !! "token_use" = Some "access")) eqn:Haccess;
    [| discriminate].
  intros [= <- <-].
  destruct (find_public_key_ok env _ _ _ Hfind)
    as (pre & kd & post & -> & Hpre & Hkd & Hfrom).
  destruct (get_jwks_frame env _ _ _ Hjwks) as (_ & _ & _ & Hcached & _).
  exists header, kid, pre, kd, post, key, w0.
  repeat split; try assumption.
  now apply bool_decide_eq_true in Haccess.
Qed.

End Validation.

Section EntryPoint.

Context {Key : Type} (env : @Env Key).

(** ** The entry point as a whole *)

Lemma get_client_tenant_map_total w :
  ∃ m w', _get_client_tenant_map env w = (Ok m, w').
Proof. apply get_ssm_json_total. Qed.

Lemma get_tenant_api_key_map_total w :
  ∃ m w', _get_tenant_api_key_map env w = (Ok m, w').
Proof. apply get_ssm_json_total. Qed.

(** X11: an Allow is issued only for a resolved tenant. When the entry
    point returns an Allow, the credential was not empty, its token passed
    validation as an access token, the identity map returned by the cache
    maps the caller identity of the claims to a non-empty tenant, the key
    map returned by the cache maps that tenant to a non-empty key, and the
    decision names exactly that tenant as principal and in its context and
    exactly that key as usage key. *)
Theorem allow_only_for_resolved_tenant
    (event : Dict) (w : World) (d : Policy) (w' : World) :
  lambda_handler env event w = (Ok d, w') →
  policy_effect d = "Allow" →
  ∃ claims w1 m w2 t km w3 k,
    bearer_token event ≠ ""
    ∧ _validate_token env (bearer_token event) w = (Ok claims, w1)
    ∧ claims !! "token_use" = Some "access"
    ∧ _get_client_tenant_map env w1 = (Ok m, w2)
    ∧ m !! caller_identity claims = Some t
    ∧ t ≠ ""
    ∧ _get_tenant_api_key_map env
        (logged ("Resolved client_id=" +:+ caller_identity claims +:+
                 " -> tenant_id=" +:+ t) w2) = (Ok km, w3)
    ∧ km !! t = Some k
    ∧ k ≠ ""
    ∧ principalId d = t
    ∧ usageIdentifierKey d = Some k
    ∧ context d = {[ "tenant_id" := t ]}.
Proof.
  rewrite lambda_handler_run.
  destruct (truthy (bearer_token event)) eqn:Htok; [| discriminate].
  apply truthy_true in Htok.
  destruct (_validate_token env (bearer_token event) w) as [[claims|e] w1]
    eqn:Hval; [| discriminate].
  cbn zeta.
  destruct (_get_client_tenant_map env w1) as [[m|e] w2] eqn:Hmap;
    [| discriminate].
  destruct (m !! caller_identity claims) as [[|a t]|] eqn:Hten.
  1, 3: intros [= <- <-] Heff; discriminate Heff.
  destruct (_get_tenant_api_key_map env _) as [[km|e] w3] eqn:Hkeys;
    [| discriminate].
  destruct (km !! String a t) as [[|b k]|] eqn:Hkey.
  1, 3: intros [= <- <-] Heff; discriminate Heff.
  intros [= <- <-] _.
  exists claims, w1, m, w2, (String a t), km, w3, (String b k).
  pose proof (validate_token_access env _ _ _ _ Hval) as Haccess.
  repeat split; try assumption; discriminate.
Qed.

(** X12: every decision has the same document. Whatever is returned, Allow
    or Deny, holds one statement, for the action [execute-api:Invoke], over
    the pattern computed from the [methodArn] of the event; when the event
    has no [methodArn] that pattern is ["*"]. The context map holds no key
    other than [tenant_id]. *)
Theorem decision_document_shape
    (event : Dict) (w : World) (d : Policy) (w' : World) :
  lambda_handler env event w = (Ok d, w') →
  policyDocument d
  = {| Version := "2012-10-17";
       Statements :=
         [ {| Action := "execute-api:Invoke";
              Effect := policy_effect d;
              Resource :=
                wildcard_resource (default "*" (event !! "methodArn")) |} ]
    |}
  ∧ (event !! "methodArn" = None → policy_resource d = "*")
  ∧ (∀ key, key ≠ "tenant_id" → context d !! key = None).
Proof.
  rewrite lambda_handler_run.
  destruct (truthy (bearer_token event)); [| discriminate].
  destruct (_validate_token env (bearer_token event) w) as [[claims|e] w1];
    [| discriminate].
  cbn zeta.
  destruct (_get_client_tenant_map env w1) as [[m|e] w2]; [| discriminate].
  assert (Hstar : event !! "methodArn" = None →
                  wildcard_resource (method_arn event) = "*").
  { unfold method_arn. now intros ->. }
  destruct (m !! caller_identity claims) as [[|a t]|].
  1, 3: intros [= <- <-]; (split; [reflexivity |]);
        (split; [exact Hstar |]); intros key _; apply lookup_empty.
  destruct (_get_tenant_api_key_map env _) as [[km|e] w3]; [| discriminate].
  destruct (km !! String a t) as [[|b k]|].
  1, 3: intros [= <- <-]; (split; [reflexivity |]);
        (split; [exact Hstar |]); intros key _; apply lookup_empty.
  intros [= <- <-]. split; [reflexivity |]. split; [exact Hstar |].
  intros key Hne. cbn. now rewrite lookup_insert_ne.
Qed.



(** X15: a warm process answers without any external call. With a key set
    cached and both mapping caches holding non-empty data that is still
    fresh at the clock readings of the request, the entry point, whatever
    the credential and whatever the outcome, reads no parameter, fetches no
    key set and leaves both caches and the key set as they were. *)
Theorem warm_request_makes_no_external_call
    (event : Dict) (w : World) (jwks : list Dict) :
  jwks_cache w = Some jwks →
  data (_client_tenant_cache w) ≠ ∅ →
  data (_tenant_api_key_cache w) ≠ ∅ →
  (time_time env (S (ticks w)) < expires_at (_client_tenant_cache w))%Q →
  (time_time env (S (S (ticks w))) < expires_at (_tenant_api_key_cache w))%Q →
  ∃ r w', lambda_handler env event w = (r, w')
          ∧ ssm_reads (output w') = ssm_reads (output w)
          ∧ url_opens (output w') = url_opens (output w)
          ∧ (∀ c, cache_of c w' = cache_of c w)
          ∧ jwks_cache w' = jwks_cache w.
Proof.
  intros Hcached Hcdata Htdata Hcfresh Htfresh.
  rewrite lambda_handler_run.
  destruct (truthy (bearer_token event)).
  2: { eexists _, _. repeat split. }
  destruct (_validate_token env (bearer_token event) w) as [[claims|e] w1]
    eqn:Hval.
  2: { destruct (validate_token_frame env _ _ _ _ Hval) as (Hc & Hs & Hk).
       destruct (Hk jwks Hcached) as (Hj & Ho & _).
       eexists _, _. split; [reflexivity |]. run.
       rewrite ssm_reads_app, url_opens_app, !app_nil_r, Ho, Hj, Hcached.
       repeat split.
       intros []; [exact (Hc TenantApiKeyCache) | exact (Hc ClientTenantCache)]. }
  destruct (validate_token_frame env _ _ _ _ Hval) as (Hc & Hs & Hk).
  destruct (Hk jwks Hcached) as (Hj & Ho & Ht).
  pose proof (Hc ClientTenantCache) as Hcc.
  pose proof (Hc TenantApiKeyCache) as Htc. cbn [cache_of] in Hcc, Htc.
  cbn zeta. unfold _get_client_tenant_map.
  rewrite get_ssm_json_hit; cbn [cache_of]; rewrite ?Hcc, ?Ht;
    [| assumption | assumption].
  assert (Hdone : ∀ line,
    ssm_reads (output (logged line (after tick w1))) = ssm_reads (output w)
    ∧ url_opens (output (logged line (after tick w1)))
      = url_opens (output w)
    ∧ (∀ c, cache_of c (logged line (after tick w1)) = cache_of c w)
    ∧ jwks_cache (logged line (after tick w1)) = jwks_cache w).
  { intros line. run.
    rewrite ssm_reads_app, url_opens_app, !app_nil_r, Ho, Hj, Hcached.
    repeat split.
    intros []; [exact (Hc TenantApiKeyCache) | exact (Hc ClientTenantCache)]. }
  destruct (data (_client_tenant_cache w) !! caller_identity claims)
    as [[|a t]|].
  1, 3: eexists _, _; split; [reflexivity |]; now apply Hdone.
  unfold _get_tenant_api_key_map.
  rewrite get_ssm_json_hit; run; rewrite ?Htc, ?Ht;
    [| assumption | assumption].
  destruct (data (_tenant_api_key_cache w) !! String a t) as [[|b k]|].
  all: eexists _, _; split; [reflexivity |]; run.
  all: rewrite <- !app_assoc, ssm_reads_app, url_opens_app, !app_nil_r.
  all: rewrite Ho, Hj, Hcached; repeat split.
  all: intros []; cbn [cache_of _tenant_api_key_cache _client_tenant_cache];
    congruence.
Qed.

End EntryPoint.

(** ** The scheme prefix of the credential *)

Lemma str_lower_app (a b : string) :
  str_lower (a +:+ b) = str_lower a +:+ str_lower b.
Proof. induction a as [|c a IH]; simpl; [reflexivity | now rewrite IH]. Qed.

Lemma str_lower_length (a : string) :
  String.length (str_lower a) = String.length a.
Proof. induction a as [|c a IH]; simpl; [reflexivity | now rewrite IH]. Qed.

Lemma prefix_app (a b : string) : String.prefix a (a +:+ b) = true.
Proof.
  induction a as [|c a IH]; simpl; [now destruct b |].
  destruct (ascii_dec c c); [exact IH | contradiction].
Qed.

Lemma str_from_app (a b : string) : str_from (String.length a) (a +:+ b) = b.
Proof. induction a as [|c a IH]; simpl; [reflexivity | exact IH]. Qed.

(** X16: the scheme prefix is recognised in any letter case and removed
    once. A credential made of the word [bearer], in any mix of upper and
    lower case, one space and a token yields that token unchanged (also when
    the token itself begins with the same word); and the credential is
    empty after the removal exactly when the header is missing or empty or
    holds nothing but the prefix. *)
Theorem scheme_prefix_removed_once (event : Dict) :
  (∀ scheme token,
     str_lower scheme = "bearer " →
     bearer_token (<["authorizationToken" := scheme +:+ token]> event)
     = token)
  ∧ (bearer_token event = ""
     ↔ default "" (event !! "authorizationToken") = ""
       ∨ str_lower (default "" (event !! "authorizationToken")) = "bearer ").
Proof.
  split; [| apply bearer_token_empty].
  intros scheme token Hscheme. unfold bearer_token, str_startswith.
  rewrite lookup_insert_eq. cbn [default from_option id].
  rewrite str_lower_app, Hscheme, prefix_app.
  assert (Hlen : String.length scheme = 7%nat)
    by now rewrite <- str_lower_length, Hscheme.
  rewrite <- Hlen. apply str_from_app.
Qed.

(** * The further properties at concrete requests *)

(** The key set fetched on a cold process is served again after the signer
    has rotated its keys. *)
Lemma key_set_fetched_once_witness :
  let w1 := after (_get_jwks env_mapped) initial_world in
  _get_jwks env_mapped initial_world = (Ok demo_jwks, w1)
  ∧ ∀ (env' : @Env string) (w2 : World),
      jwks_cache w2 = jwks_cache w1 →
      _get_jwks env' w2 = (Ok demo_jwks, w2).
Proof.
  intros w1.
  assert (Hrun : _get_jwks env_mapped initial_world = (Ok demo_jwks, w1))
    by (vm_compute; reflexivity).
  split; [exact Hrun |].
  exact (key_set_fetched_once env_mapped initial_world demo_jwks w1 Hrun).
Defined.

Lemma key_set_failure_not_cached_witness :
  let w := initial_world in
  let e := "<urlopen error timed out>" in
  (jwks_cache w = None
   ∧ urlopen_jwks env_jwks_down (ticks w) (JWKS_URL env_jwks_down) = Raise e)
  ∧ ∃ w', _get_jwks env_jwks_down w = (Raise e, w')
          ∧ jwks_cache w' = None
          ∧ (∀ c, cache_of c w' = cache_of c w)
          ∧ output w' = output w ++ [UrlOpen (JWKS_URL env_jwks_down)]
          ∧ ∀ w2, jwks_cache w2 = jwks_cache w' →
                  ∃ r w2', _get_jwks env_jwks_down w2 = (r, w2')
                           ∧ output w2'
                             = output w2 ++
                               [UrlOpen (JWKS_URL env_jwks_down)].
Proof.
  intros w e.
  assert (Hnone : jwks_cache w = None) by reflexivity.
  assert (Hfetch : urlopen_jwks env_jwks_down (ticks w)
                     (JWKS_URL env_jwks_down) = Raise e) by reflexivity.
  split; [split; assumption |].
  exact (key_set_failure_not_cached env_jwks_down w e Hnone Hfetch).
Defined.

Lemma public_key_is_first_match_witness :
  let w' := after (_get_public_key env_mapped "key-1") initial_world in
  _get_public_key env_mapped "key-1" initial_world = (Ok "modulus", w')
  ∧ ∃ pre key_data post,
      jwks_cache w' = Some (pre ++ key_data :: post)
      ∧ (∀ d, d ∈ pre → ∃ k, d !! "kid" = Some k ∧ k ≠ "key-1")
      ∧ key_data !! "kid" = Some "key-1"
      ∧ RSAAlgorithm_from_jwk env_mapped key_data = Ok "modulus".
Proof.
  intros w'.
  assert (Hrun : _get_public_key env_mapped "key-1" initial_world
                 = (Ok "modulus", w')) by (vm_compute; reflexivity).
  split; [exact Hrun |].
  exact (public_key_is_first_match env_mapped "key-1" initial_world
           "modulus" w' Hrun).
Defined.

(** A [kid] the key set does not have, and a key set whose first entry has
    no [kid] while its second is the one asked for. *)
Lemma public_key_lookup_failures_witness :
  let malformed : list Dict :=
    [ {[ "kty" := "RSA" ]}; {[ "kid" := "key-1"; "n" := "modulus" ]} ] in
  _get_public_key env_mapped "key-9" (world_with_jwks demo_jwks)
  = (Raise ("No matching key found for kid=" +:+ "key-9"),
     world_with_jwks demo_jwks)
  ∧ _get_public_key env_mapped "key-1" (world_with_jwks malformed)
    = (Raise "'kid'", world_with_jwks malformed).
Proof.
  intros malformed. split.
  - refine (proj1 (public_key_lookup_failures env_mapped "key-9"
                     (world_with_jwks demo_jwks) demo_jwks
                     (world_with_jwks demo_jwks) eq_refl) _).
    intros d Hd. apply list_elem_of_singleton in Hd as ->.
    exists "key-1". split; [reflexivity | discriminate].
  - refine (proj2 (public_key_lookup_failures env_mapped "key-1"
                     (world_with_jwks malformed) malformed
                     (world_with_jwks malformed) eq_refl)
              [] {[ "kty" := "RSA" ]}
              [ {[ "kid" := "key-1"; "n" := "modulus" ]} ] eq_refl _ _).
    + intros d Hd. inversion Hd.
    + reflexivity.
Defined.

Lemma grant_same_for_every_path_witness :
  let pre := "arn:aws:execute-api:us-east-1:123456789012" in
  let api := "a1b2c3d4e5" in
  (count_char ":" pre = 4%nat
   ∧ count_char ":" api = 0%nat
   ∧ count_char "/" api = 0%nat)
  ∧ policy_resource
      (_build_policy "tenantA" "Allow"
         (pre +:+ ":" +:+ api +:+ String "/" "prod/GET/orders")
         (Some "key-789") (Some "tenantA"))
    = pre +:+ ":" +:+ api +:+ "/*"
  ∧ policy_resource
      (_build_policy "tenantA" "Allow"
         (pre +:+ ":" +:+ api +:+ String "/" "prod/GET/orders")
         (Some "key-789") (Some "tenantA"))
    = policy_resource
        (_build_policy "tenantA" "Allow"
           (pre +:+ ":" +:+ api +:+ String "/" "dev/POST/items/42")
           (Some "key-789") (Some "tenantA")).
Proof.
  intros pre api.
  assert (Hpre : count_char ":" pre = 4%nat) by reflexivity.
  assert (Hapi : count_char ":" api = 0%nat) by reflexivity.
  assert (Hslash : count_char "/" api = 0%nat) by reflexivity.
  split; [repeat split; assumption |].
  exact (grant_same_for_every_path pre api "prod/GET/orders"
           "dev/POST/items/42" "tenantA" "Allow" (Some "key-789")
           (Some "tenantA") Hpre Hapi Hslash).
Defined.

Lemma mapping_caches_independent_witness :
  let path := "/api/client-tenant-map" in
  let w := warm_world 400 in
  let w' := after (_get_ssm_json env_mapped path ClientTenantCache) w in
  _get_ssm_json env_mapped path ClientTenantCache w
  = (Ok {[ "abc123" := "tenantA" ]}, w')
  ∧ (∀ other, other ≠ ClientTenantCache → cache_of other w' = cache_of other w)
  ∧ jwks_cache w' = jwks_cache w
  ∧ url_opens (output w') = url_opens (output w).
Proof.
  intros path w w'.
  assert (Hrun : _get_ssm_json env_mapped path ClientTenantCache w
                 = (Ok {[ "abc123" := "tenantA" ]}, w'))
    by (vm_compute; reflexivity).
  split; [exact Hrun |].
  exact (mapping_caches_independent env_mapped path ClientTenantCache w _ w'
           Hrun).
Defined.


Lemma empty_mapping_always_reloaded_witness :
  let path := "/api/client-tenant-map" in
  let w := initial_world in
  (¬ (data (cache_of ClientTenantCache w) ≠ ∅
      ∧ (time_time env_unknown (ticks w)
         < expires_at (cache_of ClientTenantCache w))%Q)
   ∧ ssm_get_parameter_json env_unknown (S (ticks w)) path = Ok ∅)
  ∧ ∃ w', _get_ssm_json env_unknown path ClientTenantCache w = (Ok ∅, w')
          ∧ expires_at (cache_of ClientTenantCache w')
            = (time_time env_unknown (ticks w) + 300)%Q
          ∧ ∀ (env' : @Env string) (path' : string) (w2 : World),
              cache_of ClientTenantCache w2 = cache_of ClientTenantCache w' →
              ∃ m w2', _get_ssm_json env' path' ClientTenantCache w2
                       = (Ok m, w2')
                       ∧ ssm_reads (output w2')
                         = ssm_reads (output w2) ++ [path'].
Proof.
  intros path w.
  assert (Hstale : ¬ (data (cache_of ClientTenantCache w) ≠ ∅
                      ∧ (time_time env_unknown (ticks w)
                         < expires_at (cache_of ClientTenantCache w))%Q)).
  { intros [Hdata _]. now apply Hdata. }
  assert (Hload : ssm_get_parameter_json env_unknown (S (ticks w)) path
                  = Ok ∅) by reflexivity.
  split; [split; assumption |].
  exact (empty_mapping_always_reloaded env_unknown path ClientTenantCache w
           Hstale Hload).
Defined.

Lemma validated_claims_sound_witness :
  let token := "valid.access.token" in
  let claims : Dict := {[ "client_id" := "abc123"; "token_use" := "access" ]} in
  let w1 := after (_validate_token env_mapped token) initial_world in
  _validate_token env_mapped token initial_world = (Ok claims, w1)
  ∧ ∃ header kid pre key_data post key w0,
      jwt_get_unverified_header env_mapped token = Ok header
      ∧ header !! "kid" = Some kid
      ∧ jwks_cache w1 = Some (pre ++ key_data :: post)
      ∧ (∀ d, d ∈ pre → ∃ k, d !! "kid" = Some k ∧ k ≠ kid)
      ∧ key_data !! "kid" = Some kid
      ∧ RSAAlgorithm_from_jwk env_mapped key_data = Ok key
      ∧ jwt_decode env_mapped (ticks w0) token key = Ok claims
      ∧ w1 = after tick w0
      ∧ claims !! "token_use" = Some "access".
Proof.
  intros token claims w1.
  assert (Hrun : _validate_token env_mapped token initial_world
                 = (Ok claims, w1)) by (vm_compute; reflexivity).
  split; [exact Hrun |].
  exact (validated_claims_sound env_mapped token initial_world claims w1
           Hrun).
Defined.

Lemma allow_only_for_resolved_tenant_witness :
  let event := demo_event "Bearer valid.access.token" in
  let d := _build_policy "tenantA" "Allow" demo_arn (Some "key-789")
             (Some "tenantA") in
  let w' := after (lambda_handler env_mapped event) initial_world in
  (lambda_handler env_mapped event initial_world = (Ok d, w')
   ∧ policy_effect d = "Allow")
  ∧ ∃ claims w1 m w2 t km w3 k,
      bearer_token event ≠ ""
      ∧ _validate_token env_mapped (bearer_token event) initial_world
        = (Ok claims, w1)
      ∧ claims !! "token_use" = Some "access"
      ∧ _get_client_tenant_map env_mapped w1 = (Ok m, w2)
      ∧ m !! caller_identity claims = Some t
      ∧ t ≠ ""
      ∧ _get_tenant_api_key_map env_mapped
          (logged ("Resolved client_id=" +:+ caller_identity claims +:+
                   " -> tenant_id=" +:+ t) w2) = (Ok km, w3)
      ∧ km !! t = Some k
      ∧ k ≠ ""
      ∧ principalId d = t
      ∧ usageIdentifierKey d = Some k
      ∧ context d = {[ "tenant_id" := t ]}.
Proof.
  intros event d w'.
  assert (Hrun : lambda_handler env_mapped event initial_world = (Ok d, w'))
    by (vm_compute; reflexivity).
  assert (Heff : policy_effect d = "Allow") by reflexivity.
  split; [split; assumption |].
  exact (allow_only_for_resolved_tenant env_mapped event initial_world d w'
           Hrun Heff).
Defined.

(** An event without [methodArn]: the Deny of an unknown caller is a grant
    pattern over everything. *)
Lemma decision_document_shape_witness :
  let event : Dict := {[ "authorizationToken" := "Bearer valid.access.token" ]} in
  let d := _build_policy "abc123" "Deny" "*" None None in
  let w' := after (lambda_handler env_unknown event) initial_world in
  lambda_handler env_unknown event initial_world = (Ok d, w')
  ∧ policyDocument d
    = {| Version := "2012-10-17";
         Statements :=
           [ {| Action := "execute-api:Invoke";
                Effect := policy_effect d;
                Resource :=
                  wildcard_resource (default "*" (event !! "methodArn")) |} ]
      |}
  ∧ (event !! "methodArn" = None → policy_resource d = "*")
  ∧ (∀ key, key ≠ "tenant_id" → context d !! key = None).
Proof.
  intros event d w'.
  assert (Hrun : lambda_handler env_unknown event initial_world = (Ok d, w'))
    by (vm_compute; reflexivity).
  split; [exact Hrun |].
  exact (decision_document_shape env_unknown event initial_world d w' Hrun).
Defined.



Lemma warm_request_makes_no_external_call_witness :
  let event := demo_event "Bearer valid.access.token" in
  let w := warm_world 100 in
  (jwks_cache w = Some demo_jwks
   ∧ data (_client_tenant_cache w) ≠ ∅
   ∧ data (_tenant_api_key_cache w) ≠ ∅
   ∧ (time_time env_mapped (S (ticks w))
      < expires_at (_client_tenant_cache w))%Q
   ∧ (time_time env_mapped (S (S (ticks w)))
      < expires_at (_tenant_api_key_cache w))%Q)
  ∧ ∃ r w', lambda_handler env_mapped event w = (r, w')
            ∧ ssm_reads (output w') = ssm_reads (output w)
            ∧ url_opens (output w') = url_opens (output w)
            ∧ (∀ c, cache_of c w' = cache_of c w)
            ∧ jwks_cache w' = jwks_cache w.
Proof.
  intros event w.
  assert (Hcached : jwks_cache w = Some demo_jwks) by reflexivity.
  assert (Hcdata : data (_client_tenant_cache w) ≠ ∅)
    by (apply dict_truthy_true; vm_compute; reflexivity).
  assert (Htdata : data (_tenant_api_key_cache w) ≠ ∅)
    by (apply dict_truthy_true; vm_compute; reflexivity).
  assert (Hcfresh : (time_time env_mapped (S (ticks w))
                     < expires_at (_client_tenant_cache w))%Q)
    by (vm_compute; reflexivity).
  assert (Htfresh : (time_time env_mapped (S (S (ticks w)))
                     < expires_at (_tenant_api_key_cache w))%Q)
    by (vm_compute; reflexivity).
  split; [repeat split; assumption |].
  exact (warm_request_makes_no_external_call env_mapped event w demo_jwks
           Hcached Hcdata Htdata Hcfresh Htfresh).
Defined.

Lemma scheme_prefix_removed_once_witness :
  str_lower "BeArEr " = "bearer "
  ∧ bearer_token
      (<["authorizationToken" := "BeArEr " +:+ "Bearer valid.access.token"]>
         (demo_event ""))
    = "Bearer valid.access.token".
Proof.
  assert (Hscheme : str_lower "BeArEr " = "bearer ") by reflexivity.
  split; [exact Hscheme |].
  exact (proj1 (scheme_prefix_removed_once (demo_event "")) "BeArEr "
           "Bearer valid.access.token" Hscheme).
Defined.

Example warm_request_log :
  output (after (lambda_handler env_mapped
                   (demo_event "Bearer valid.access.token"))
            (warm_world 100))
  = [ Printed "Resolved client_id=abc123 -> tenant_id=tenantA";
      Printed "Authorized tenant=tenantA, applying usage plan key" ].
Proof. vm_compute. reflexivity. Qed.
